(** * selfcord: the outbound rate limiter and the gateway handler

    A shallow embedding of [selfcord/utils.py] (class [RateLimiter]),
    [selfcord/gateway.py] (class [GatewayHandler]) and of the two lines of
    [selfcord/bot.py] that wire the limiter into [DiscordUser].

    Time is the rational line: a reading of [time.time()] is a [Q] (seconds),
    and [asyncio.sleep d] lets at least [d] seconds pass.  Python floats are
    idealised as rationals (no rounding, no NaN). *)

From Stdlib Require Import ZArith QArith Qround Qpower Lqa Lia List Ascii String.
From stdpp Require Import base option gmap strings list pretty.

Local Open Scope Q_scope.

(** ** Rational helpers *)

(** [x < y] as a boolean test, as Python evaluates it. *)
Definition Qltb (x y : Q) : bool := negb (Qle_bool y x).

(** What [await asyncio.sleep(d)] costs at least: a delay that is not
    positive only yields to the event loop. *)
Definition asyncio_sleep (d : Q) : Q := if Qle_bool d 0 then 0 else d.

(** Python's [min] on a list: the first least element, [ValueError]
    (here [None]) on the empty list. *)
Definition py_min (l : list Q) : option Q :=
  match l with
  | [] => None
  | x :: l' => Some (fold_left (fun m t => if Qltb t m then t else m) l' x)
  end.

(** Python's [min(a, b)]: [b] when it is smaller, else [a]. *)
Definition py_min2 (a b : Q) : Q := if Qltb b a then b else a.

(** [x % 1] on a float: Python's modulo takes the sign of the divisor, so
    the result is [x - floor x]. *)
Definition mod1 (x : Q) : Q := x - inject_Z (Qfloor x).

(** ** utils.py: configuration and [RateLimiter] *)

Module Utils.

(** One entry of [rate_limits]: [{'requests': n, 'window': w}], either key
    possibly absent. *)
Record Limits := { requests : option Z; window : option Q }.

(** The configuration dictionary, with the keys this development reads. *)
Record Config := {
  token : option string;
  prefix : option string;
  rate_limits : option (gmap string Limits)
}.

Definition empty_config : Config :=
  {| token := None; prefix := None; rate_limits := None |}.

Definition default_rate_limits : gmap string Limits :=
  <["message"%string := {| requests := Some 5%Z; window := Some 5 |}]>
  (<["command"%string := {| requests := Some 10%Z; window := Some 60 |}]> ∅).

Definition default_config : Config :=
  {| token := Some ""%string; prefix := Some "!"%string;
     rate_limits := Some default_rate_limits |}.

(** What [load_config] finds at [config_path]. *)
Inductive config_file :=
| Missing
| Unreadable
| Parsed (user_config : Config).

(** [load_config]: the defaults when the file is missing or unreadable,
    otherwise the user's keys over the defaults, [rate_limits] merged
    entry by entry. *)
Definition load_config (f : config_file) : Config :=
  match f with
  | Missing => default_config
  | Unreadable => default_config
  | Parsed user_config =>
      {| token := match token user_config with
                  | Some v => Some v
                  | None => token default_config
                  end;
         prefix := match prefix user_config with
                   | Some v => Some v
                   | None => prefix default_config
                   end;
         rate_limits :=
           Some (default ∅ (rate_limits user_config) ∪ default_rate_limits) |}
  end.

(** [self.buckets] maps a bucket name to its ['requests'] list;
    [self.config] is [config or {}]. *)
Record RateLimiter := {
  buckets : gmap string (list Q);
  config : Config
}.

Definition RateLimiter_init (config : option Config) : RateLimiter :=
  {| buckets := ∅; config := default empty_config config |}.

(** Lines 99-101: the limits of a bucket. *)
Definition limits_of (self : RateLimiter) (bucket_name : string) : Limits :=
  default {| requests := Some 5%Z; window := Some 5 |}
          (default ∅ (rate_limits (config self)) !! bucket_name).

Definition max_requests_of (self : RateLimiter) (bucket_name : string) : Z :=
  default 5%Z (requests (limits_of self bucket_name)).

Definition window_of (self : RateLimiter) (bucket_name : string) : Q :=
  default 5 (window (limits_of self bucket_name)).

Definition set_bucket (self : RateLimiter) (bucket_name : string)
    (reqs : list Q) : RateLimiter :=
  {| buckets := <[bucket_name := reqs]> (buckets self);
     config := config self |}.

(** The timestamps of a bucket; a bucket that does not exist yet is
    created empty (lines 103-104). *)
Definition bucket_of (self : RateLimiter) (bucket_name : string) : list Q :=
  default [] (buckets self !! bucket_name).

(** [now - t < window], the test of the comprehension on line 106. *)
Definition young (now window t : Q) : bool := Qltb (now - t) window.

(** How a call ends: the timestamp appended on return, or the
    [ValueError] of [min] on an empty list. *)
Inductive outcome :=
| Granted (stamp : Q)
| ValueError.

(** [wait_if_needed].  [now] is the reading of [time.time()] on line 102;
    [late] is the time that passes up to the reading on line 111 beyond
    what the call asked to sleep. *)
Definition wait_if_needed (self : RateLimiter) (bucket_name : string)
    (now late : Q) : RateLimiter * outcome :=
  let max_requests := max_requests_of self bucket_name in
  let window := window_of self bucket_name in
  let reqs := List.filter (young now window) (bucket_of self bucket_name) in
  if (max_requests <=? Z.of_nat (length reqs))%Z then
    match py_min reqs with
    | None => (set_bucket self bucket_name reqs, ValueError)
    | Some oldest =>
        let wait_time := window - (now - oldest) in
        let stamp := now + asyncio_sleep wait_time + late in
        (set_bucket self bucket_name (reqs ++ [stamp]), Granted stamp)
    end
  else
    let stamp := now + late in
    (set_bucket self bucket_name (reqs ++ [stamp]), Granted stamp).

(** One call of a caller: which bucket, when it starts, and how late it
    comes back. *)
Record call := { bucket : string; at_time : Q; lateness : Q }.

(** The clock when a call returns. *)
Definition return_time (c : call) (o : outcome) : Q :=
  match o with
  | Granted stamp => stamp
  | ValueError => at_time c
  end.

(** Calls made one after the other by a single task, from clock [clk]:
    the limiter afterwards, the clock, and the admissions in order, each
    with its bucket. *)
Fixpoint run_calls (self : RateLimiter) (clk : Q) (cs : list call)
    : RateLimiter * Q * list (string * Q) :=
  match cs with
  | [] => (self, clk, [])
  | c :: cs' =>
      let '(self', o) := wait_if_needed self (bucket c) (at_time c) (lateness c) in
      let '(final, clk', adm) := run_calls self' (return_time c o) cs' in
      (final, clk',
       match o with
       | Granted stamp => (bucket c, stamp) :: adm
       | ValueError => adm
       end)
  end.

(** The clock never runs backwards: every call starts no earlier than the
    previous one returned, and nothing takes negative time. *)
Fixpoint sequential (self : RateLimiter) (clk : Q) (cs : list call) : bool :=
  match cs with
  | [] => true
  | c :: cs' =>
      Qle_bool clk (at_time c) && Qle_bool 0 (lateness c) &&
      let '(self', o) := wait_if_needed self (bucket c) (at_time c) (lateness c) in
      sequential self' (return_time c o) cs'
  end.

(** The admissions of one bucket. *)
Definition admissions_of (bucket_name : string) (adm : list (string * Q))
    : list Q :=
  map snd (List.filter (fun a => String.eqb (fst a) bucket_name) adm).

(** [t] lies in the interval from [a] (included) to [a + window]
    (excluded): the window that opens at [a]. *)
Definition in_window (a window t : Q) : bool :=
  Qle_bool a t && Qltb t (a + window).

(** How many of [stamps] fall in the window that opens at [a]. *)
Definition count_in (a window : Q) (stamps : list Q) : nat :=
  length (List.filter (in_window a window) stamps).

(** How many of [stamps] are younger than [window] at time [now]. *)
Definition count_young (now window : Q) (stamps : list Q) : nat :=
  length (List.filter (young now window) stamps).

(** The admissions [hist] of bucket [b] so far, against the limiter and the
    clock: no admission lies in the future, the bucket still holds every
    admission that is young now or later, and no window holds more than
    [N]. *)
Definition inv (b : string) (N : Z) (W : Q)
    (self : RateLimiter) (clk : Q) (hist : list Q) : Prop :=
  (forall t, In t hist -> t <= clk) /\
  (forall now, clk <= now ->
     List.filter (young now W) (bucket_of self b) = List.filter (young now W) hist) /\
  (forall a, (Z.of_nat (count_in a W hist) <= N)%Z).

(** The scenario of a bucket of 2 requests per 5 seconds. *)
Definition two_per_five : Config :=
  {| token := None; prefix := None;
     rate_limits :=
       Some (<["message"%string := {| requests := Some 2%Z; window := Some 5 |}]> ∅) |}.

Definition at_zero : call :=
  {| bucket := "message"; at_time := 0; lateness := 0 |}.

End Utils.

(** ** utils.py: calls to the limiter that overlap *)

Module Overlap.
Import Utils.

(** How a call reaches line 110: the bucket is not full and the call goes
    straight on to line 111, or it is full and the call sleeps
    [wait_time], or [min] raises. *)
Inductive pause :=
| Through
| Sleep (wait_time : Q)
| Raises.

(** [wait_if_needed] from line 99 up to the [await] of line 110; the
    bucket is left pruned. *)
Definition before_await (self : RateLimiter) (bucket_name : string) (now : Q)
    : RateLimiter * pause :=
  let max_requests := max_requests_of self bucket_name in
  let window := window_of self bucket_name in
  let reqs := List.filter (young now window) (bucket_of self bucket_name) in
  let self := set_bucket self bucket_name reqs in
  if (max_requests <=? Z.of_nat (length reqs))%Z then
    match py_min reqs with
    | None => (self, Raises)
    | Some oldest => (self, Sleep (window - (now - oldest)))
    end
  else (self, Through).

(** Line 111: the reading [stamp] of [time.time()] is appended to what
    the bucket holds by then. *)
Definition after_await (self : RateLimiter) (bucket_name : string) (stamp : Q)
    : RateLimiter :=
  set_bucket self bucket_name (bucket_of self bucket_name ++ [stamp]).

(** Several tasks of one event loop call the limiter for one bucket: the
    limiter they share, the times at which the sleeping calls may go on,
    and the timestamps appended so far. *)
Record pool := {
  limiter : RateLimiter;
  sleepers : list Q;
  stamped : list Q
}.

Definition fresh (config : option Config) : pool :=
  {| limiter := RateLimiter_init config; sleepers := []; stamped := [] |}.

(** What the event loop does next: a task calls [wait_if_needed] at time
    [now] and runs up to the [await], or to the end when it need not wait;
    or the [i]-th sleeping call goes on at time [now] and appends its
    timestamp. *)
Inductive turn :=
| Start (now : Q)
| Wake (i : nat) (now : Q).

(** One turn; [None] when call [i] is not sleeping or its sleep is not
    over at [now]. *)
Definition take_turn (bucket_name : string) (p : pool) (t : turn) : option pool :=
  match t with
  | Start now =>
      let '(rl, ps) := before_await (limiter p) bucket_name now in
      match ps with
      | Through =>
          Some {| limiter := after_await rl bucket_name now;
                  sleepers := sleepers p; stamped := stamped p ++ [now] |}
      | Sleep wait_time =>
          Some {| limiter := rl;
                  sleepers := sleepers p ++ [now + asyncio_sleep wait_time];
                  stamped := stamped p |}
      | Raises =>
          Some {| limiter := rl; sleepers := sleepers p; stamped := stamped p |}
      end
  | Wake i now =>
      match sleepers p !! i with
      | Some wake =>
          if Qle_bool wake now then
            Some {| limiter := after_await (limiter p) bucket_name now;
                    sleepers := delete i (sleepers p);
                    stamped := stamped p ++ [now] |}
          else None
      | None => None
      end
  end.

Fixpoint take_turns (bucket_name : string) (p : pool) (ts : list turn)
    : option pool :=
  match ts with
  | [] => Some p
  | t :: ts' =>
      match take_turn bucket_name p t with
      | Some p' => take_turns bucket_name p' ts'
      | None => None
      end
  end.

(** How many of [stamps] fall in the interval from [a] to [a + window],
    both ends included. *)
Definition count_closed (a window : Q) (stamps : list Q) : nat :=
  length (List.filter (fun t => Qle_bool a t && Qle_bool t (a + window)) stamps).

End Overlap.

(** ** gateway.py: [GatewayHandler] *)

Module Gateway.

(** A decoded JSON value, as [json.loads] returns it. *)
#[local] Unset Elimination Schemes.
Inductive json :=
| JNull
| JBool (b : bool)
| JInt (n : Z)
| JFloat (x : Q)
| JStr (v : string)
| JArr (items : list json)
| JObj (items : list (string * json)).
#[local] Set Elimination Schemes.

(** [o[key]] on a decoded object whose keys are distinct. *)
Fixpoint assoc (key : string) (items : list (string * json)) : option json :=
  match items with
  | [] => None
  | (k, v) :: rest => if String.eqb k key then Some v else assoc key rest
  end.

(** The four keys [_handle_message] reads off an inbound frame with
    [data.get]; an absent or null key reads as [None]. *)
Record frame := {
  op : option Z;
  d : json;
  s : option Z;
  t : option string
}.

(** What [async for msg in ws] yields.  The body of a [TEXT] message is
    what [json.loads(msg.data)] makes of it: [None] when it raises
    [JSONDecodeError]. *)
Inductive ws_msg :=
| TEXT (data : option frame)
| BINARY
| ERROR
| CLOSE.

(** The three payloads the handler writes to the socket. *)
Inductive payload :=
| Identify (token : string) (properties : list (string * string))
| Resume (token : string) (session_id : option string) (seq : option Z)
| Heartbeat (seq : option Z).

(** The ['op'] key of a payload. *)
Definition payload_op (p : payload) : Z :=
  match p with
  | Identify _ _ => 2
  | Resume _ _ _ => 6
  | Heartbeat _ => 1
  end%Z.

Definition identify_properties : list (string * string) :=
  [("os", "windows"); ("browser", "Chrome"); ("device", "");
   ("system_locale", "en-US"); ("browser_user_agent", "Mozilla/5.0");
   ("browser_version", "112.0")]%string.

Inductive level := DEBUG | INFO | WARNING | ERROR_.

(** The attributes of [self].  [ws] is [None] before the first
    connection and otherwise holds the [closed] flag of the socket. *)
Record GatewayHandler := {
  token : string;
  ws : option bool;
  session_id : option string;
  sequence : option Z;
  heartbeat_interval : option Q;
  last_heartbeat_ack : bool;
  reconnect_attempts : Z;
  max_reconnect_attempts : Z
}.

Definition GatewayHandler_init (token : string) : GatewayHandler :=
  {| token := token; ws := None; session_id := None; sequence := None;
     heartbeat_interval := None; last_heartbeat_ack := true;
     reconnect_attempts := 0; max_reconnect_attempts := 5 |}.

(** Where the task running [connect] stands. *)
Inductive reader_state :=
| Idle                    (* [connect] is not running: not called yet, returned or raised *)
| Reading                 (* inside [async for msg in ws] *)
| InvalidWait (wake : Q)  (* inside [asyncio.sleep(5)] of the opcode 9 branch *)
| Backoff (wake : Q).     (* inside [asyncio.sleep(delay)] of the [except] branch *)

(** Where a task running [_heartbeat_loop] stands. *)
Inductive hb_state :=
| HbNew                   (* created by [asyncio.create_task], not started *)
| HbSleeping (wake : Q)   (* inside [asyncio.sleep(self.heartbeat_interval)] *)
| HbDone.                 (* left the loop *)

(** The handler together with what surrounds it: the clock, the tasks of
    the event loop, the payloads written to the socket (each with the
    time of writing), the events handed to [bot.handle_event] and the
    log records. *)
Record World := {
  gw : GatewayHandler;
  clock : Q;
  reader : reader_state;
  tasks : list hb_state;
  wire : list (Q * payload);
  dispatched : list (option string * json);
  log : list (level * string)
}.

Definition boot (token : string) : World :=
  {| gw := GatewayHandler_init token; clock := 0; reader := Idle;
     tasks := []; wire := []; dispatched := []; log := [] |}.

(** *** Field updates *)

Definition with_gw (g : GatewayHandler) (w : World) : World :=
  {| gw := g; clock := clock w; reader := reader w; tasks := tasks w;
     wire := wire w; dispatched := dispatched w; log := log w |}.

Definition with_clock (c : Q) (w : World) : World :=
  {| gw := gw w; clock := c; reader := reader w; tasks := tasks w;
     wire := wire w; dispatched := dispatched w; log := log w |}.

Definition with_reader (r : reader_state) (w : World) : World :=
  {| gw := gw w; clock := clock w; reader := r; tasks := tasks w;
     wire := wire w; dispatched := dispatched w; log := log w |}.

Definition with_tasks (ts : list hb_state) (w : World) : World :=
  {| gw := gw w; clock := clock w; reader := reader w; tasks := ts;
     wire := wire w; dispatched := dispatched w; log := log w |}.

Definition with_wire (ps : list (Q * payload)) (w : World) : World :=
  {| gw := gw w; clock := clock w; reader := reader w; tasks := tasks w;
     wire := ps; dispatched := dispatched w; log := log w |}.

Definition with_dispatched (es : list (option string * json)) (w : World) : World :=
  {| gw := gw w; clock := clock w; reader := reader w; tasks := tasks w;
     wire := wire w; dispatched := es; log := log w |}.

Definition logger (l : level) (msg : string) (w : World) : World :=
  {| gw := gw w; clock := clock w; reader := reader w; tasks := tasks w;
     wire := wire w; dispatched := dispatched w; log := log w ++ [(l, msg)] |}.

Definition set_ws (v : option bool) (g : GatewayHandler) : GatewayHandler :=
  {| token := token g; ws := v; session_id := session_id g;
     sequence := sequence g; heartbeat_interval := heartbeat_interval g;
     last_heartbeat_ack := last_heartbeat_ack g;
     reconnect_attempts := reconnect_attempts g;
     max_reconnect_attempts := max_reconnect_attempts g |}.

Definition set_session_id (v : option string) (g : GatewayHandler) : GatewayHandler :=
  {| token := token g; ws := ws g; session_id := v;
     sequence := sequence g; heartbeat_interval := heartbeat_interval g;
     last_heartbeat_ack := last_heartbeat_ack g;
     reconnect_attempts := reconnect_attempts g;
     max_reconnect_attempts := max_reconnect_attempts g |}.

Definition set_sequence (v : option Z) (g : GatewayHandler) : GatewayHandler :=
  {| token := token g; ws := ws g; session_id := session_id g;
     sequence := v; heartbeat_interval := heartbeat_interval g;
     last_heartbeat_ack := last_heartbeat_ack g;
     reconnect_attempts := reconnect_attempts g;
     max_reconnect_attempts := max_reconnect_attempts g |}.

Definition set_heartbeat_interval (v : option Q) (g : GatewayHandler) : GatewayHandler :=
  {| token := token g; ws := ws g; session_id := session_id g;
     sequence := sequence g; heartbeat_interval := v;
     last_heartbeat_ack := last_heartbeat_ack g;
     reconnect_attempts := reconnect_attempts g;
     max_reconnect_attempts := max_reconnect_attempts g |}.

Definition set_last_heartbeat_ack (v : bool) (g : GatewayHandler) : GatewayHandler :=
  {| token := token g; ws := ws g; session_id := session_id g;
     sequence := sequence g; heartbeat_interval := heartbeat_interval g;
     last_heartbeat_ack := v;
     reconnect_attempts := reconnect_attempts g;
     max_reconnect_attempts := max_reconnect_attempts g |}.

Definition set_reconnect_attempts (v : Z) (g : GatewayHandler) : GatewayHandler :=
  {| token := token g; ws := ws g; session_id := session_id g;
     sequence := sequence g; heartbeat_interval := heartbeat_interval g;
     last_heartbeat_ack := last_heartbeat_ack g;
     reconnect_attempts := v;
     max_reconnect_attempts := max_reconnect_attempts g |}.

(** *** The methods *)

(** [self.ws and not self.ws.closed] *)
Definition ws_live (g : GatewayHandler) : bool :=
  match ws g with
  | Some closed => negb closed
  | None => false
  end.

(** Python's truth value of [self.session_id]: [None] and the empty
    string are false. *)
Definition truthy (v : option string) : bool :=
  match v with
  | None => false
  | Some EmptyString => false
  | Some (String _ _) => true
  end.

Definition _send_payload (p : payload) (w : World) : World :=
  if ws_live (gw w) then with_wire (wire w ++ [(clock w, p)]) w else w.

Definition _send_heartbeat (w : World) : World :=
  let p := Heartbeat (sequence (gw w)) in
  let w := with_gw (set_last_heartbeat_ack false (gw w)) w in
  let w := _send_payload p w in
  logger DEBUG "Heartbeat sent" w.

Definition _identify (w : World) : World :=
  let p := Identify (token (gw w)) identify_properties in
  let w := _send_payload p w in
  logger INFO "Identification sent to gateway (user token)" w.

Definition _resume (w : World) : World :=
  let p := Resume (token (gw w)) (session_id (gw w)) (sequence (gw w)) in
  let w := _send_payload p w in
  logger INFO "Session resume sent to gateway" w.

Definition close (w : World) : World :=
  let w := if ws_live (gw w) then with_gw (set_ws (Some true) (gw w)) w else w in
  logger INFO "Gateway connection closed" w.

(** The least integer that no longer converts to a float: halfway
    between the largest float and [2 ^ 1024], which rounds up. *)
Definition float_overflow : Z := (2 ^ 1024 - 2 ^ 970)%Z.

(** [d['heartbeat_interval'] / 1000.0]; [None] when the subscript or the
    division raises: [d] is not an object ([TypeError]), the key is
    missing ([KeyError]), the value is not a number ([TypeError]), or it is
    an integer too large to convert to a float ([OverflowError]). *)
Definition hello_interval (d : json) : option Q :=
  match d with
  | JObj items =>
      match assoc "heartbeat_interval" items with
      | Some (JInt n) =>
          if (Z.abs n <? float_overflow)%Z then Some (inject_Z n / 1000)
          else None
      | Some (JFloat x) => Some (x / 1000)
      | Some (JBool b) => Some ((if b then 1 else 0) / 1000)
      | _ => None
      end
  | _ => None
  end.

(** How a run of [_handle_message] leaves the reader: returned, suspended
    in the [asyncio.sleep(5)] of the opcode 9 branch (with [_identify]
    still to run), or raised. *)
Inductive flow := Returned | Sleeping5 | Raised.

Definition op_is (o : option Z) (n : Z) : bool :=
  match o with
  | Some m => (m =? n)%Z
  | None => false
  end.

Definition _handle_message (data : frame) (w : World) : World * flow :=
  let w := match s data with
           | Some n => with_gw (set_sequence (Some n) (gw w)) w
           | None => w
           end in
  if op_is (op data) 0 then
    let w := logger DEBUG "Received event" w in
    (with_dispatched (dispatched w ++ [(t data, d data)]) w, Returned)
  else if op_is (op data) 1 then
    (_send_heartbeat w, Returned)
  else if op_is (op data) 7 then
    (close (logger WARNING "Gateway requested reconnect" w), Returned)
  else if op_is (op data) 9 then
    let w := logger WARNING "Invalid session, re-identifying..." w in
    let w := with_gw (set_session_id None (gw w)) w in
    let w := with_gw (set_sequence None (gw w)) w in
    (w, Sleeping5)
  else if op_is (op data) 10 then
    match hello_interval (d data) with
    | None => (w, Raised)
    | Some interval =>
        let w := with_gw (set_heartbeat_interval (Some interval) (gw w)) w in
        let w := logger INFO "Gateway hello received" w in
        let w := with_tasks (tasks w ++ [HbNew]) w in
        if truthy (session_id (gw w)) then (_resume w, Returned)
        else (_identify w, Returned)
    end
  else if op_is (op data) 11 then
    let w := with_gw (set_last_heartbeat_ack true (gw w)) w in
    (logger DEBUG "Heartbeat acknowledged" w, Returned)
  else (w, Returned).

(** One turn of the [while] of [_heartbeat_loop], run by task [i] when
    the event loop schedules it: from the loop test to the next
    [asyncio.sleep], or out of the loop. *)
Definition _heartbeat_loop (i : nat) (w : World) : World :=
  if ws_live (gw w) then
    if negb (last_heartbeat_ack (gw w)) then
      let w := logger WARNING "Heartbeat not acknowledged, connection may be dead" w in
      with_tasks (<[i := HbDone]> (tasks w)) w
    else
      let w := _send_heartbeat w in
      match heartbeat_interval (gw w) with
      | Some interval =>
          with_tasks (<[i := HbSleeping (clock w + asyncio_sleep interval)]> (tasks w)) w
      | None => with_tasks (<[i := HbDone]> (tasks w)) w
      end
  else with_tasks (<[i := HbDone]> (tasks w)) w.

(** The [except Exception] branch of [connect] (lines 39-49): the state
    afterwards and the delay slept before the exception is raised again,
    [None] when it is raised at once. *)
Definition connect_except (w : World) : World * option Q :=
  let attempts := (reconnect_attempts (gw w) + 1)%Z in
  let w := with_gw (set_reconnect_attempts attempts (gw w)) w in
  let w := logger ERROR_ "Gateway connection error" w in
  if (attempts <? max_reconnect_attempts (gw w))%Z then
    let delay := py_min2 300 (2 ^ attempts + mod1 (clock w)) in
    (logger INFO "Reconnecting in ... seconds..." w, Some delay)
  else
    (logger ERROR_ "Max reconnection attempts reached" w, None).

(** Leaving the [async with] block closes the socket. *)
Definition leave_ws (w : World) : World :=
  match ws (gw w) with
  | Some _ => with_gw (set_ws (Some true) (gw w)) w
  | None => w
  end.

(** An exception reaches the [except] branch: the reader sleeps the
    backoff delay, or stops at once. *)
Definition fail (w : World) : World :=
  let '(w, delay) := connect_except w in
  match delay with
  | Some delay => with_reader (Backoff (clock w + asyncio_sleep delay)) w
  | None => with_reader Idle w
  end.

(** [connect] up to the read loop; [ok] tells whether [ws_connect]
    succeeds. *)
Definition connect (ok : bool) (w : World) : World :=
  let w := logger INFO "Connecting to Discord gateway..." w in
  if ok then
    let w := with_gw (set_ws (Some false) (gw w)) w in
    let w := with_gw (set_reconnect_attempts 0 (gw w)) w in
    let w := logger INFO "Gateway connection established" w in
    with_reader Reading w
  else fail w.

(** The body of the read loop for the next message.  Once the socket is
    closed the iteration is over and [connect] returns. *)
Definition read_loop (msg : ws_msg) (w : World) : World :=
  if negb (ws_live (gw w)) then with_reader Idle (leave_ws w)
  else
    match msg with
    | TEXT None => fail (leave_ws w)
    | TEXT (Some data) =>
        let '(w, f) := _handle_message data w in
        match f with
        | Returned => w
        | Sleeping5 => with_reader (InvalidWait (clock w + 5)) w
        | Raised => fail (leave_ws w)
        end
    | BINARY => w
    | ERROR =>
        with_reader Idle (leave_ws (logger ERROR_ "Gateway error" w))
    | CLOSE =>
        with_reader Idle (leave_ws (logger WARNING "Gateway connection closed" w))
    end.

(** *** The event loop *)

(** What can happen next: time passes, the caller runs [connect], the
    reader gets a message, a sleeping reader wakes up, a heartbeat task
    is scheduled, or the bot is stopped ([stop] calls [close]). *)
Inductive event :=
| Elapse (dt : Q)
| Connect (ok : bool)
| Recv (msg : ws_msg)
| ReaderResume
| HeartbeatRun (i : nat)
| Stop.

(** One event; [None] when it cannot happen in [w]. *)
Definition step (w : World) (e : event) : option World :=
  match e with
  | Elapse dt =>
      if Qle_bool 0 dt then Some (with_clock (clock w + dt) w) else None
  | Connect ok =>
      match reader w with
      | Idle => Some (connect ok w)
      | _ => None
      end
  | Recv msg =>
      match reader w with
      | Reading => Some (read_loop msg w)
      | _ => None
      end
  | ReaderResume =>
      match reader w with
      | InvalidWait wake =>
          if Qle_bool wake (clock w)
          then Some (_identify (with_reader Reading w)) else None
      | Backoff wake =>
          if Qle_bool wake (clock w)
          then Some (with_reader Idle w) else None
      | _ => None
      end
  | HeartbeatRun i =>
      match tasks w !! i with
      | Some HbNew => Some (_heartbeat_loop i w)
      | Some (HbSleeping wake) =>
          if Qle_bool wake (clock w) then Some (_heartbeat_loop i w) else None
      | _ => None
      end
  | Stop => Some (close w)
  end.

Fixpoint run (w : World) (es : list event) : option World :=
  match es with
  | [] => Some w
  | e :: es' =>
      match step w e with
      | Some w' => run w' es'
      | None => None
      end
  end.

(** The payloads written, oldest first. *)
Definition sent (w : World) : list payload := map snd (wire w).

(** The opcodes that [_handle_message] has a branch for. *)
Definition known_opcode (o : option Z) : bool :=
  op_is o 0 || op_is o 1 || op_is o 7 || op_is o 9 || op_is o 10 || op_is o 11.

(** What a frame does to the stored sequence on lines 77-78. *)
Definition note_sequence (data : frame) (w : World) : World :=
  match s data with
  | Some n => with_gw (set_sequence (Some n) (gw w)) w
  | None => w
  end.

(** From [w] to [w'] the socket was only written to, and if [session_id]
    was unset in [w] it still is in [w'] and no resume was written. *)
Definition unresumed (w w' : World) : Prop :=
  (session_id (gw w) = None -> session_id (gw w') = None) /\
  exists extra,
    sent w' = sent w ++ extra /\
    (session_id (gw w) = None -> Forall (fun p => payload_op p <> 6%Z) extra).

(** *** Sample frames and states *)

Definition hello (interval_ms : Z) : frame :=
  {| op := Some 10%Z;
     d := JObj [("heartbeat_interval"%string, JInt interval_ms)];
     s := None; t := None |}.

Definition dispatch (seq : Z) (event_type : string) : frame :=
  {| op := Some 0%Z; d := JObj []; s := Some seq; t := Some event_type |}.

Definition heartbeat_request : frame :=
  {| op := Some 1%Z; d := JNull; s := None; t := None |}.

Definition invalid_session : frame :=
  {| op := Some 9%Z; d := JBool false; s := None; t := None |}.

Definition heartbeat_ack : frame :=
  {| op := Some 11%Z; d := JNull; s := None; t := None |}.

Definition unknown_opcode : frame :=
  {| op := Some 42%Z; d := JNull; s := Some 8%Z; t := None |}.

(** A handler in the read loop of an open socket that holds session
    [sid] at sequence [seq]. *)
Definition in_session (sid : string) (seq : Z) : World :=
  let w := boot "tok" in
  let g := set_ws (Some false) (gw w) in
  let g := set_session_id (Some sid) g in
  let g := set_sequence (Some seq) g in
  with_reader Reading (with_gw g w).

End Gateway.

(** ** bot.py: the limiter inside [DiscordUser] *)

Module Bot.

Record DiscordUser := {
  config : Utils.Config;
  rate_limiter : Utils.RateLimiter
}.

(** [__init__] keeps [config] and builds [RateLimiter()] with no
    argument. *)
Definition DiscordUser_init (config : Utils.Config) : DiscordUser :=
  {| config := config; rate_limiter := Utils.RateLimiter_init None |}.

(** The first line of [send_message], which passes the limiter; the
    HTTP request that follows does not touch it. *)
Definition send_message (self : DiscordUser) (now late : Q)
    : DiscordUser * Utils.outcome :=
  let '(rl, o) :=
    Utils.wait_if_needed (rate_limiter self) "message" now late in
  ({| config := config self; rate_limiter := rl |}, o).

(** [send_message] called time and again, each call with its two clock
    readings: the bot afterwards and how each call ended. *)
Fixpoint send_messages (self : DiscordUser) (calls : list (Q * Q))
    : DiscordUser * list Utils.outcome :=
  match calls with
  | [] => (self, [])
  | (now, late) :: rest =>
      let '(self', o) := send_message self now late in
      let '(final, os) := send_messages self' rest in
      (final, o :: os)
  end.

(** A configuration file that allows one message per minute. *)
Definition one_per_minute : Utils.Config :=
  {| Utils.token := Some "t"%string; Utils.prefix := None;
     Utils.rate_limits :=
       Some (<["message"%string :=
                {| Utils.requests := Some 1%Z; Utils.window := Some 60 |}]> ∅) |}.

End Bot.

(** ** Python strings *)

Module Py.

(** A [str] is its sequence of code points. *)
Abbreviation str := (list N).

(** The code points of an ASCII literal. *)
Definition lit (s : string) : str := map N_of_ascii (list_ascii_of_string s).

Definition len (s : str) : Z := Z.of_nat (length s).

(** A slice bound brought into [[0, len]]: a negative bound counts from the
    end, and whatever still falls outside is cut off. *)
Definition clamp (n i : Z) : nat :=
  Z.to_nat (if (i <? 0)%Z then Z.max (i + n) 0 else Z.min i n).

(** [s[lo:hi]]; a missing bound is [None]. *)
Definition slice (lo hi : option Z) (s : str) : str :=
  let a := match lo with Some i => clamp (len s) i | None => 0%nat end in
  let b := match hi with Some i => clamp (len s) i | None => length s end in
  firstn (b - a) (skipn a s).

(** [sub] occurs in [s] at index [i]. *)
Definition matches_at (sub s : str) (i : nat) : bool :=
  bool_decide (firstn (length sub) (skipn i s) = sub).

(** The highest of the [n] indices from [lo] on at which [sub] occurs,
    [-1] if there is none. *)
Fixpoint rfind_from (sub s : str) (lo n : nat) : Z :=
  match n with
  | O => (-1)%Z
  | S n' =>
      if matches_at sub s (lo + n') then Z.of_nat (lo + n')
      else rfind_from sub s lo n'
  end.

(** [s.rfind(sub, start, end)]: the highest index of an occurrence of
    [sub] that lies within [s[start:end]], [-1] if there is none. *)
Definition rfind (sub : str) (start end_ : Z) (s : str) : Z :=
  let a := clamp (len s) start in
  let b := clamp (len s) end_ in
  rfind_from sub s a (S b - (a + length sub)).

(** [s.startswith(prefix)] *)
Definition startswith (prefix s : str) : bool :=
  bool_decide (firstn (length prefix) s = prefix).

(** The code points [str.isspace] holds for; [strip], [lstrip] and
    [split] without argument remove exactly these. *)
Definition isspace (c : N) : bool :=
  (((9 <=? c) && (c <=? 13)) || ((28 <=? c) && (c <=? 32)) ||
   (c =? 133) || (c =? 160) || (c =? 5760) ||
   ((8192 <=? c) && (c <=? 8202)) || (c =? 8232) || (c =? 8233) ||
   (c =? 8239) || (c =? 8287) || (c =? 12288))%N.

Fixpoint lstrip (s : str) : str :=
  match s with
  | [] => []
  | c :: s' => if isspace c then lstrip s' else s
  end.

Definition rstrip (s : str) : str := rev (lstrip (rev s)).

Definition strip (s : str) : str := rstrip (lstrip s).

(** The words of [s] from its first character on, [cur] being the
    characters of the current word, last first. *)
Fixpoint words (cur s : str) : list str :=
  match s with
  | [] => match cur with [] => [] | _ => [rev cur] end
  | c :: s' =>
      if isspace c then
        match cur with
        | [] => words [] s'
        | _ => rev cur :: words [] s'
        end
      else words (c :: cur) s'
  end.

(** [s.split()]: the runs of characters that are not white space. *)
Definition split (s : str) : list str := words [] s.

(** [int(x)] on a float: the fraction is dropped, towards zero. *)
Definition int (x : Q) : Z := Z.quot (Qnum x) (Zpos (Qden x)).

End Py.

(** ** utils.py: text helpers *)

Module Text.
Import Py.

(** [divmod(int(seconds), 86400)] and so on: days, hours, minutes and
    seconds. *)
Definition time_parts (seconds : Q) : Z * Z * Z * Z :=
  let n := int seconds in
  let '(days, rem) := (n / 86400, n mod 86400)%Z in
  let '(hours, rem) := (rem / 3600, rem mod 3600)%Z in
  let '(minutes, secs) := (rem / 60, rem mod 60)%Z in
  (days, hours, minutes, secs).

(** [" ".join(result)] *)
Fixpoint join (parts : list string) : string :=
  match parts with
  | [] => ""
  | [p] => p
  | p :: rest => p +:+ " " +:+ join rest
  end.

Definition format_time (seconds : Q) : string :=
  let '(days, hours, minutes, secs) := time_parts seconds in
  let result := [] in
  let result := if (days =? 0)%Z then result else result ++ [pretty days +:+ "d"] in
  let result := if (hours =? 0)%Z then result else result ++ [pretty hours +:+ "h"] in
  let result := if (minutes =? 0)%Z then result else result ++ [pretty minutes +:+ "m"] in
  let result := result ++ [pretty secs +:+ "s"] in
  join result.

Definition truncate_text (text : str) (max_length : Z) : str :=
  if (len text <=? max_length)%Z then text
  else slice None (Some (max_length - 3)%Z) text ++ lit "...".

(** The class of the first substitution: the characters [<>:], the double
    quote, [/], the backslash and [|?*]. *)
Definition reserved (c : N) : bool :=
  bool_decide (c ∈ [60; 62; 58; 34; 47; 92; 124; 63; 42]%N).

(** The class of the second substitution: [\x00-\x1f] and [\x7f-\x9f]. *)
Definition control (c : N) : bool :=
  (c <=? 31)%N || ((127 <=? c)%N && (c <=? 159)%N).

(** A character that neither substitution touches. *)
Definition clean (c : N) : bool := negb (reserved c) && negb (control c).

Definition sanitize_filename (filename : str) : str :=
  let filename := map (fun c => if reserved c then 95%N else c) filename in
  let filename := List.filter (fun c => negb (control c)) filename in
  slice None (Some 255%Z) filename.

(** Where the [while] loop of [safe_send_message] cuts: after the last
    newline among the first [max_length] characters, else after the last
    full stop followed by a space, else after index [max_length]. *)
Definition split_pos (content : str) (max_length : Z) : Z :=
  let split_pos := rfind (lit (String "010" "")) 0 max_length content in
  let split_pos :=
    if (split_pos =? -1)%Z then rfind (lit ". ") 0 max_length content
    else split_pos in
  if (split_pos =? -1)%Z then max_length else split_pos.

(** The [while content:] loop, with the chunks collected so far; one unit
    of [fuel] per turn, [None] when it runs out. *)
Fixpoint chunk_loop (fuel : nat) (content : str) (max_length : Z)
    (chunks : list str) : option (list str) :=
  match fuel with
  | O => None
  | S fuel' =>
      match content with
      | [] => Some chunks
      | _ =>
          if (len content <=? max_length)%Z then Some (chunks ++ [content])
          else
            let p := split_pos content max_length in
            chunk_loop fuel'
              (lstrip (slice (Some (p + 1)%Z) None content)) max_length
              (chunks ++ [strip (slice None (Some (p + 1)%Z) content)])
      end
  end.

(** The messages [safe_send_message] hands to [bot.send_message], in
    order. *)
Definition safe_send_message (fuel : nat) (content : str) (max_length : Z)
    : option (list str) :=
  if (len content <=? max_length)%Z then Some [content]
  else chunk_loop fuel content max_length [].

(** No white space anywhere. *)
Definition solid (s : str) : Prop := Forall (fun c => isspace c = false) s.

(** The characters of a text that are not white space. *)
Definition ink (s : str) : str := List.filter (fun c => negb (isspace c)) s.

End Text.

(** ** commands.py: [CommandSystem] *)

Module Commands.
Import Py.

(** What a command runs: one of the four built-in methods, or a callable
    of the caller. *)
Inductive callable :=
| _ping_command
| _help_command
| _stats_command
| _uptime_command
| custom (n : nat).

Record Command := {
  name : str;
  handler : callable;
  description : str;
  aliases : list str;
  usage_count : Z;
  last_used : option Q
}.

(** [self.commands] maps a key to a [Command] object.  [objects] holds the
    objects in the order of their creation and an entry of [commands] is
    the index of its object: the name and the aliases of one registration
    are entries for one and the same object. *)
Record CommandSystem := {
  prefix : str;
  objects : list Command;
  commands : gmap str nat
}.

Definition register_command (name : str) (handler : callable)
    (description : str) (aliases : option (list str))
    (self : CommandSystem) : CommandSystem :=
  let command :=
    {| name := name; handler := handler; description := description;
       aliases := default [] aliases; usage_count := 0; last_used := None |} in
  let id := length (objects self) in
  {| prefix := prefix self;
     objects := objects self ++ [command];
     commands := foldl (fun m alias => <[alias := id]> m)
                       (<[name := id]> (commands self))
                       (default [] aliases) |}.

Definition _register_default_commands (self : CommandSystem) : CommandSystem :=
  let self := register_command (lit "ping") _ping_command
                (lit "Test bot responsiveness") None self in
  let self := register_command (lit "help") _help_command
                (lit "Show available commands") None self in
  let self := register_command (lit "stats") _stats_command
                (lit "Show bot statistics") None self in
  register_command (lit "uptime") _uptime_command (lit "Show bot uptime") None self.

Definition CommandSystem_init (prefix : str) : CommandSystem :=
  _register_default_commands {| prefix := prefix; objects := []; commands := ∅ |}.

(** How [handle_command] leaves: it returned early, found no command of
    that name, ran the handler of a command, or [parts[0]] raised. *)
Inductive outcome :=
| Ignored
| Unknown (command_name : str)
| Ran (id : nat) (args : list str)
| IndexError.

(** Lines 58-59 on one object. *)
Definition used (now : Q) (c : Command) : Command :=
  {| name := name c; handler := handler c; description := description c;
     aliases := aliases c; usage_count := usage_count c + 1;
     last_used := Some now |}.

(** [handle_command] up to the call of the handler.  [lower] is
    [str.lower], [content] the ['content'] of the message and [now] the
    reading of [time.time()]. *)
Definition handle_command (lower : str -> str) (content : str) (now : Q)
    (self : CommandSystem) : CommandSystem * outcome :=
  if negb (startswith (prefix self) content) then (self, Ignored)
  else
    let command_text := strip (slice (Some (len (prefix self))) None content) in
    match command_text with
    | [] => (self, Ignored)
    | _ =>
        match split command_text with
        | [] => (self, IndexError)
        | word :: args =>
            let command_name := lower word in
            match commands self !! command_name with
            | None => (self, Unknown command_name)
            | Some id =>
                ({| prefix := prefix self;
                    objects := alter (used now) id (objects self);
                    commands := commands self |},
                 Ran id args)
            end
        end
    end.

(** How often the command stored under [key] was used. *)
Definition usage_of (self : CommandSystem) (key : str) : option Z :=
  match commands self !! key with
  | Some id => usage_count <$> objects self !! id
  | None => None
  end.

(** Every entry of [commands] points at an object. *)
Definition sound (self : CommandSystem) : Prop :=
  forall key id, commands self !! key = Some id -> (id < length (objects self))%nat.

End Commands.

(** ** bot.py: events *)

Module Events.
Import Py Commands.

Record Stats := {
  messages_processed : Z;
  commands_executed : Z;
  events_received : Z
}.

(** The attributes of [DiscordUser] that [handle_event] touches, and the
    error records it logs. *)
Record DiscordUser := {
  stats : Stats;
  commands : CommandSystem;
  errors : list string
}.

Definition DiscordUser_init (prefix : str) : DiscordUser :=
  {| stats := {| messages_processed := 0; commands_executed := 0;
                 events_received := 0 |};
     commands := CommandSystem_init prefix;
     errors := [] |}.

Definition with_stats (s : Stats) (self : DiscordUser) : DiscordUser :=
  {| stats := s; commands := commands self; errors := errors self |}.

Definition raised (event_type : string) (self : DiscordUser) : DiscordUser :=
  {| stats := stats self; commands := commands self;
     errors := errors self ++ ["Error handling event " +:+ event_type] |}.

(** [_handle_message]; [None] when it raises.  The message must be an
    object, its ['author'] (default [{}]) an object too, since
    [author.get] is called on it, and its ['content'] (default ['']) a
    string, since it is sliced and asked [startswith]. *)
Definition _handle_message (lower : str -> str) (data : Gateway.json) (now : Q)
    (self : DiscordUser) : DiscordUser * bool :=
  let st := stats self in
  let self := with_stats {| messages_processed := messages_processed st + 1;
                            commands_executed := commands_executed st;
                            events_received := events_received st |} self in
  match data with
  | Gateway.JObj items =>
      match default (Gateway.JObj []) (Gateway.assoc "author" items),
            default (Gateway.JStr "") (Gateway.assoc "content" items) with
      | Gateway.JObj _, Gateway.JStr content =>
          let '(cs, o) := handle_command lower (lit content) now (commands self) in
          match o with
          | Ran _ _ =>
              let st := stats self in
              ({| stats := {| messages_processed := messages_processed st;
                              commands_executed := commands_executed st + 1;
                              events_received := events_received st |};
                  commands := cs; errors := errors self |}, true)
          | IndexError => (self, false)
          | _ => (self, true)
          end
      | _, _ => (self, false)
      end
  | _ => (self, false)
  end.

(** [handle_event]: every event is counted; an exception in a branch is
    caught and logged.  [_handle_guild_create], [_handle_guild_update],
    [_handle_reaction_add] and [_handle_reaction_remove] are not defined in
    the class, so their branches raise [AttributeError]. *)
Definition handle_event (lower : str -> str) (event_type : string)
    (data : Gateway.json) (now : Q) (self : DiscordUser) : DiscordUser :=
  let st := stats self in
  let self := with_stats {| messages_processed := messages_processed st;
                            commands_executed := commands_executed st;
                            events_received := events_received st + 1 |} self in
  if String.eqb event_type "MESSAGE_CREATE" then
    let '(self, ok) := _handle_message lower data now self in
    if ok then self else raised event_type self
  else if String.eqb event_type "GUILD_CREATE" then raised event_type self
  else if String.eqb event_type "GUILD_UPDATE" then raised event_type self
  else if String.eqb event_type "MESSAGE_REACTION_ADD" then raised event_type self
  else if String.eqb event_type "MESSAGE_REACTION_REMOVE" then raised event_type self
  else self.

(** The events of a session, one after the other. *)
Fixpoint handle_events (lower : str -> str)
    (events : list (string * Gateway.json * Q)) (self : DiscordUser) : DiscordUser :=
  match events with
  | [] => self
  | (event_type, data, now) :: rest =>
      handle_events lower rest (handle_event lower event_type data now self)
  end.

End Events.

(** * Facts *)

(** ** Rational and list helpers *)

Lemma Qltb_lt (x y : Q) : Qltb x y = true <-> x < y.
Proof.
  unfold Qltb. rewrite negb_true_iff. split.
  - intros H. destruct (Qlt_le_dec x y) as [Hlt|Hle]; [exact Hlt|].
    apply Qle_bool_iff in Hle. congruence.
  - intros H. destruct (Qle_bool y x) eqn:E; [|reflexivity].
    apply Qle_bool_iff in E. lra.
Qed.

Lemma Qltb_ge (x y : Q) : Qltb x y = false <-> y <= x.
Proof.
  unfold Qltb. rewrite negb_false_iff. apply Qle_bool_iff.
Qed.

Lemma asyncio_sleep_ge (d : Q) : d <= asyncio_sleep d /\ 0 <= asyncio_sleep d.
Proof.
  unfold asyncio_sleep. destruct (Qle_bool d 0) eqn:E.
  - apply Qle_bool_iff in E. lra.
  - assert (~ d <= 0) by (rewrite <- Qle_bool_iff; congruence). lra.
Qed.

(** ** Plain list facts about [List.filter] *)

Section FilterFacts.
Context {A : Type}.
Implicit Types (p q : A -> bool) (l : list A).

Lemma filter_filter_weaker p q l :
  (forall x, In x l -> p x = true -> q x = true) ->
  List.filter p (List.filter q l) = List.filter p l.
Proof.
  induction l as [|a l IH]; intros Himp; simpl; [reflexivity|].
  assert (Hl : forall x, In x l -> p x = true -> q x = true)
    by (intros x Hx; apply Himp; right; exact Hx).
  destruct (q a) eqn:Eq; simpl.
  - destruct (p a); rewrite IH; auto.
  - destruct (p a) eqn:Ep.
    + rewrite (Himp a) in Eq; [discriminate|left; reflexivity|exact Ep].
    + apply IH, Hl.
Qed.

Lemma filter_length_mono p q l :
  (forall x, In x l -> p x = true -> q x = true) ->
  (length (List.filter p l) <= length (List.filter q l))%nat.
Proof.
  induction l as [|a l IH]; intros Himp; simpl; [lia|].
  assert (Hl : forall x, In x l -> p x = true -> q x = true)
    by (intros x Hx; apply Himp; right; exact Hx).
  specialize (IH Hl).
  destruct (p a) eqn:Ep.
  - rewrite (Himp a (or_introl eq_refl) Ep). simpl. lia.
  - destruct (q a); simpl; lia.
Qed.

Lemma filter_length_le p l : (length (List.filter p l) <= length l)%nat.
Proof.
  induction l as [|a l IH]; simpl; [lia|]. destruct (p a); simpl; lia.
Qed.

Lemma filter_length_drop p l x :
  In x l -> p x = false -> (length (List.filter p l) < length l)%nat.
Proof.
  induction l as [|a l IH]; simpl; [tauto|].
  intros [->|Hin] Hx.
  - rewrite Hx. pose proof (filter_length_le p l). lia.
  - specialize (IH Hin Hx). destruct (p a); simpl; lia.
Qed.
End FilterFacts.

Lemma py_min_spec (l : list Q) (m : Q) :
  py_min l = Some m -> In m l /\ forall x, In x l -> m <= x.
Proof.
  destruct l as [|a l]; simpl; [discriminate|].
  intros [= <-].
  set (f := fun m t : Q => if Qltb t m then t else m).
  assert (G : forall l a,
    (fold_left f l a = a \/ In (fold_left f l a) l) /\
    fold_left f l a <= a /\
    forall x, In x l -> fold_left f l a <= x).
  { clear. intros l. induction l as [|b l IH]; intros a; simpl.
    - split; [left; reflexivity|]. split; [lra|tauto].
    - destruct (IH (f a b)) as (Hin & Hle & Hall).
      assert (Hf : (f a b = a \/ f a b = b) /\ f a b <= a /\ f a b <= b).
      { unfold f. destruct (Qltb b a) eqn:E.
        - apply Qltb_lt in E. split; [right; reflexivity|lra].
        - apply Qltb_ge in E. split; [left; reflexivity|lra]. }
      destruct Hf as (Hf & Hfa & Hfb).
      split; [|split].
      + destruct Hin as [Hin|Hin]; [|right; right; exact Hin].
        rewrite Hin. destruct Hf as [->| ->]; auto.
      + lra.
      + intros x [<-|Hx]; [lra|apply Hall, Hx]. }
  destruct (G l a) as (Hin & Hle & Hall). split.
  - destruct Hin as [->|Hin]; [left; reflexivity|right; exact Hin].
  - intros x [<-|Hx]; [exact Hle|apply Hall, Hx].
Qed.


(** ** The rate limiter *)

Section RateLimiterFacts.
Import Utils.

(** The bucket under study, with its cap and its window. *)
Variables (b : string) (N : Z) (W : Q).
Hypothesis N_nonneg : (0 <= N)%Z.

Lemma in_window_iff a t : in_window a W t = true <-> a <= t /\ t < a + W.
Proof.
  unfold in_window. rewrite andb_true_iff, Qle_bool_iff, Qltb_lt. tauto.
Qed.

Lemma young_iff now t : young now W t = true <-> now - t < W.
Proof. unfold young. apply Qltb_lt. Qed.

Lemma young_earlier now now' t :
  now <= now' -> young now' W t = true -> young now W t = true.
Proof. rewrite !young_iff. intros. lra. Qed.

(** Stamps that are all young at [now] fit in one window, the one that
    starts at the oldest of them. *)
Lemma young_bounded (now : Q) (hist : list Q) :
  (forall t, In t hist -> t <= now) ->
  (forall a, (Z.of_nat (count_in a W hist) <= N)%Z) ->
  (Z.of_nat (length (List.filter (young now W) hist)) <= N)%Z.
Proof.
  intros Hpast Hwin.
  destruct (py_min (List.filter (young now W) hist)) as [m|] eqn:Em.
  - apply py_min_spec in Em. destruct Em as [Hm Hleast].
    apply filter_In in Hm. destruct Hm as [Hm Hy]. apply young_iff in Hy.
    specialize (Hwin m). unfold count_in in Hwin.
        pose proof (filter_length_mono (young now W) (in_window m W) hist) as Hmono.
    assert (length (List.filter (young now W) hist)
            <= length (List.filter (in_window m W) hist))%nat; [|lia].
    apply Hmono. intros x Hx Hyx. apply in_window_iff. split.
    + apply Hleast, filter_In. auto.
    + specialize (Hpast x Hx). lra.
  - destruct (List.filter (young now W) hist); [simpl; lia|discriminate].
Qed.

Lemma count_in_app a (l1 l2 : list Q) :
  count_in a W (l1 ++ l2) = (count_in a W l1 + count_in a W l2)%nat.
Proof. unfold count_in. rewrite List.filter_app, length_app. reflexivity. Qed.

Lemma bucket_of_set_eq self reqs : bucket_of (set_bucket self b reqs) b = reqs.
Proof. unfold bucket_of, set_bucket. simpl. by rewrite lookup_insert_eq. Qed.

Lemma bucket_of_set_ne self b' reqs :
  b' <> b -> bucket_of (set_bucket self b' reqs) b = bucket_of self b.
Proof. intros Hne. unfold bucket_of, set_bucket. simpl. by rewrite lookup_insert_ne. Qed.

Lemma wait_if_needed_config self b' now late :
  config (fst (wait_if_needed self b' now late)) = config self.
Proof.
  unfold wait_if_needed.
  destruct (_ <=? _)%Z; [destruct (py_min _)|]; reflexivity.
Qed.

Lemma limits_stable self b' now late :
  max_requests_of (fst (wait_if_needed self b' now late)) b = max_requests_of self b /\
  window_of (fst (wait_if_needed self b' now late)) b = window_of self b.
Proof.
  unfold max_requests_of, window_of, limits_of.
  rewrite wait_if_needed_config. split; reflexivity.
Qed.

(** A call to another bucket leaves this one alone. *)
Lemma wait_if_needed_other self b' now late :
  b' <> b ->
  bucket_of (fst (wait_if_needed self b' now late)) b = bucket_of self b.
Proof.
  intros Hne. unfold wait_if_needed.
  destruct (_ <=? _)%Z; [destruct (py_min _)|]; simpl;
    apply bucket_of_set_ne, Hne.
Qed.

Lemma inv_later self clk clk' hist :
  clk <= clk' -> inv b N W self clk hist -> inv b N W self clk' hist.
Proof.
  intros Hle (Ha & Hb & Hc). split; [|split].
  - intros t Ht. specialize (Ha t Ht). lra.
  - intros now Hnow. apply Hb. lra.
  - exact Hc.
Qed.

(** Pruning at [now] keeps the invariant. *)
Lemma inv_prune self clk now hist :
  clk <= now -> inv b N W self clk hist ->
  inv b N W (set_bucket self b (List.filter (young now W) (bucket_of self b))) now hist.
Proof.
  intros Hle (Ha & Hb & Hc). split; [|split].
  - intros t Ht. specialize (Ha t Ht). lra.
  - intros now' Hnow'. rewrite bucket_of_set_eq.
    rewrite filter_filter_weaker.
    + apply Hb. lra.
    + intros x _. apply young_earlier, Hnow'.
  - exact Hc.
Qed.

(** An admission at [stamp] keeps the invariant when the stamps still young
    at [now] leave room for it: either fewer than [N] of them, or the oldest
    one has left the window by [stamp]. *)
Lemma inv_append self clk now stamp hist :
  let reqs := List.filter (young now W) (bucket_of self b) in
  clk <= now -> now <= stamp -> inv b N W self clk hist ->
  ((Z.of_nat (length reqs) < N)%Z \/
   exists oldest, In oldest reqs /\ oldest + W <= stamp) ->
  inv b N W (set_bucket self b (reqs ++ [stamp])) stamp (hist ++ [stamp]).
Proof.
  intros reqs Hclk Hnow (Ha & Hb & Hc) Hroom.
  assert (Hreqs : reqs = List.filter (young now W) hist) by (apply Hb, Hclk).
  split; [|split].
  - intros t Ht. apply in_app_or in Ht. destruct Ht as [Ht|[<-|[]]]; [|lra].
    specialize (Ha t Ht). lra.
  - intros now' Hnow'. rewrite bucket_of_set_eq, !List.filter_app. f_equal.
    unfold reqs. rewrite filter_filter_weaker.
    + apply Hb. lra.
    + intros x _. apply young_earlier. lra.
  - intros a. rewrite count_in_app.
    unfold count_in at 2. simpl.
    destruct (in_window a W stamp) eqn:Ein; simpl.
    2:{ specialize (Hc a). lia. }
    apply in_window_iff in Ein.
    assert (Hsame : List.filter (in_window a W) hist = List.filter (in_window a W) reqs).
    { rewrite Hreqs. symmetry. apply filter_filter_weaker.
      intros x Hx Hin. apply in_window_iff in Hin. apply young_iff.
      specialize (Ha x Hx). lra. }
    unfold count_in. rewrite Hsame.
    destruct Hroom as [Hfew|(oldest & Hold & Hgone)].
    + pose proof (filter_length_le (in_window a W) reqs). lia.
    + assert (Hout : in_window a W oldest = false).
      { destruct (in_window a W oldest) eqn:E; [|reflexivity].
        apply in_window_iff in E. lra. }
      pose proof (filter_length_drop (in_window a W) reqs oldest Hold Hout).
      assert (Z.of_nat (length reqs) <= N)%Z; [|lia].
      rewrite Hreqs. apply young_bounded; [|exact Hc].
      intros t Ht. specialize (Ha t Ht). lra.
Qed.

(** One call keeps the invariant; its admission, if it is for this bucket,
    joins the history. *)
Lemma wait_if_needed_inv self clk hist (c : call) :
  max_requests_of self b = N -> window_of self b = W ->
  inv b N W self clk hist -> clk <= at_time c -> 0 <= lateness c ->
  let r := wait_if_needed self (bucket c) (at_time c) (lateness c) in
  clk <= return_time c (snd r) /\
  inv b N W (fst r) (return_time c (snd r))
      (hist ++ match snd r with
               | Granted stamp => if String.eqb (bucket c) b then [stamp] else []
               | ValueError => []
               end).
Proof.
  intros HN HW Hinv Hclk Hlate. cbv zeta.
  destruct (String.eqb_spec (bucket c) b) as [Heq|Hne].
  - (* this bucket *)
    unfold wait_if_needed. rewrite Heq, HN, HW.
    set (reqs := List.filter (young (at_time c) W) (bucket_of self b)).
    destruct (N <=? Z.of_nat (length reqs))%Z eqn:Efull.
    + destruct (py_min reqs) as [oldest|] eqn:Emin; simpl.
      * apply py_min_spec in Emin. destruct Emin as [Hold _].
        pose proof (asyncio_sleep_ge (W - (at_time c - oldest))) as [Hs1 Hs2].
        split; [lra|].
        apply (inv_append self clk (at_time c)); [exact Hclk|lra|exact Hinv|].
        right. exists oldest. split; [exact Hold|lra].
      * split; [exact Hclk|]. rewrite app_nil_r.
        apply (inv_prune self clk); assumption.
    + simpl. split; [lra|].
      apply (inv_append self clk (at_time c)); [exact Hclk|lra|exact Hinv|].
      left. apply Z.leb_gt in Efull. exact Efull.
  - (* another bucket *)
    assert (Hret : clk <= return_time c
              (snd (wait_if_needed self (bucket c) (at_time c) (lateness c)))).
    { unfold wait_if_needed.
      destruct (_ <=? _)%Z; [destruct (py_min _)|]; simpl; try lra.
      match goal with |- context [asyncio_sleep ?x] =>
        pose proof (asyncio_sleep_ge x) as [_ ?] end. lra. }
    split; [exact Hret|].
    assert (Hhist : hist ++ match snd (wait_if_needed self (bucket c) (at_time c) (lateness c)) with
                            | Granted _ => [] | ValueError => [] end = hist).
    { destruct (snd _); apply app_nil_r. }
    rewrite Hhist.
    destruct Hinv as (Ha & Hb & Hc). split; [|split].
    + intros t Ht. specialize (Ha t Ht). lra.
    + intros now Hnow. rewrite wait_if_needed_other by exact Hne. apply Hb. lra.
    + exact Hc.
Qed.

(** Any number of calls, one after the other, keep the invariant. *)
Lemma run_calls_inv (cs : list call) : forall self clk hist,
  max_requests_of self b = N -> window_of self b = W ->
  inv b N W self clk hist -> sequential self clk cs = true ->
  inv b N W (fst (fst (run_calls self clk cs))) (snd (fst (run_calls self clk cs)))
      (hist ++ admissions_of b (snd (run_calls self clk cs))).
Proof.
  induction cs as [|c cs IH]; intros self clk hist HN HW Hinv Hseq.
  - simpl. unfold admissions_of. simpl. rewrite app_nil_r. exact Hinv.
  - simpl in Hseq. apply andb_true_iff in Hseq. destruct Hseq as [Hseq Hrest].
    apply andb_true_iff in Hseq. destruct Hseq as [Hclk Hlate].
    apply Qle_bool_iff in Hclk. apply Qle_bool_iff in Hlate.
    pose proof (wait_if_needed_inv self clk hist c HN HW Hinv Hclk Hlate) as Hstep.
    pose proof (limits_stable self (bucket c) (at_time c) (lateness c)) as [HN' HW'].
    cbv zeta in Hstep. simpl.
    destruct (wait_if_needed self (bucket c) (at_time c) (lateness c)) as [self' o].
    simpl in Hstep, HN', HW'. destruct Hstep as [_ Hinv'].
    specialize (IH self' (return_time c o) _ (eq_trans HN' HN) (eq_trans HW' HW) Hinv' Hrest).
    destruct (run_calls self' (return_time c o) cs) as [[final clk'] adm].
    simpl in IH |- *.
    replace (hist ++ admissions_of b
               match o with Granted stamp => (bucket c, stamp) :: adm | ValueError => adm end)
      with ((hist ++ match o with
                     | Granted stamp => if String.eqb (bucket c) b then [stamp] else []
                     | ValueError => []
                     end) ++ admissions_of b adm); [exact IH|].
    rewrite <- app_assoc. f_equal.
    destruct o as [stamp|]; [|reflexivity].
    unfold admissions_of. simpl. destruct (String.eqb (bucket c) b); reflexivity.
Qed.

End RateLimiterFacts.

Section RateLimiterClaims.
Import Utils.

(** The scenario of the design notes: with 2 requests per 5 seconds, three
    calls at time 0 are let through at 0, 0 and 5. *)
Example three_calls_at_zero :
  snd (run_calls (RateLimiter_init (Some two_per_five)) 0 [at_zero; at_zero; at_zero])
  = [("message"%string, 0); ("message"%string, 0); ("message"%string, 5)].
Proof. vm_compute. reflexivity. Qed.

(** A call made alone is its two halves, one after the other. *)
Lemma wait_if_needed_in_two (self : RateLimiter) (bucket_name : string)
    (now late : Q) :
  wait_if_needed self bucket_name now late
  = match Overlap.before_await self bucket_name now with
    | (rl, Overlap.Through) =>
        (Overlap.after_await rl bucket_name (now + late), Granted (now + late))
    | (rl, Overlap.Sleep wait_time) =>
        (Overlap.after_await rl bucket_name (now + asyncio_sleep wait_time + late),
         Granted (now + asyncio_sleep wait_time + late))
    | (rl, Overlap.Raises) => (rl, ValueError)
    end.
Proof.
  assert (Hset : forall reqs stamp,
    Overlap.after_await (set_bucket self bucket_name reqs) bucket_name stamp
    = set_bucket self bucket_name (reqs ++ [stamp])).
  { intros reqs stamp. unfold Overlap.after_await, set_bucket, bucket_of. simpl.
    rewrite lookup_insert_eq. simpl. rewrite insert_insert_eq. reflexivity. }
  unfold wait_if_needed, Overlap.before_await.
  destruct (_ <=? _)%Z; [destruct (py_min _)|]; rewrite ?Hset; reflexivity.
Qed.

(** C1, as stated, fails.  Five calls that start together on a bucket of
    2 requests per 5 seconds: two go through at 0, the other three find
    the bucket full, all sleep until 5 and all append 5, so the window from
    5 to 10 holds three admissions.  And for calls made one after the
    other, a window that includes its end holds the three admissions 0, 0
    and 5. *)
Lemma sliding_window_counterexample :
  (exists p,
     Overlap.take_turns "message" (Overlap.fresh (Some two_per_five))
       [Overlap.Start 0; Overlap.Start 0; Overlap.Start 0; Overlap.Start 0;
        Overlap.Start 0; Overlap.Wake 0 5; Overlap.Wake 0 5; Overlap.Wake 0 5]
     = Some p /\
     Overlap.stamped p = [0; 0; 5; 5; 5] /\
     bucket_of (Overlap.limiter p) "message" = [0; 0; 5; 5; 5] /\
     max_requests_of (Overlap.limiter p) "message" = 2%Z /\
     window_of (Overlap.limiter p) "message" = 5 /\
     count_in 5 5 (Overlap.stamped p) = 3%nat) /\
  (let rl := RateLimiter_init (Some two_per_five) in
   let cs := [at_zero; at_zero; at_zero] in
   sequential rl 0 cs = true /\
   admissions_of "message" (snd (run_calls rl 0 cs)) = [0; 0; 5] /\
   Overlap.count_closed 0 5 [0; 0; 5] = 3%nat).
Proof.
  split.
  - eexists. split; [vm_compute; reflexivity|]. repeat split; reflexivity.
  - repeat split; vm_compute; reflexivity.
Qed.

(** C1, amended. Calls to [wait_if_needed] made one after the other on a
    fresh limiter, each returning before the next starts, with a clock that
    does not run backwards and a cap that is not negative: every window of
    [window_seconds] (its start included, its end excluded) holds at most
    [max_requests] admissions of the bucket, and at any later time the
    bucket holds at most [max_requests] timestamps younger than
    [window_seconds]. *)
Theorem rate_limiter_sliding_window
    (cfg : option Config) (bucket_name : string) (clk0 : Q) (cs : list call) :
  let rl := RateLimiter_init cfg in
  let max_requests := max_requests_of rl bucket_name in
  let window_seconds := window_of rl bucket_name in
  let final := fst (fst (run_calls rl clk0 cs)) in
  let clk := snd (fst (run_calls rl clk0 cs)) in
  let stamps := admissions_of bucket_name (snd (run_calls rl clk0 cs)) in
  (0 <= max_requests)%Z ->
  sequential rl clk0 cs = true ->
  (forall a, (Z.of_nat (count_in a window_seconds stamps) <= max_requests)%Z) /\
  (forall now, clk <= now ->
     (Z.of_nat (count_young now window_seconds (bucket_of final bucket_name))
      <= max_requests)%Z).
Proof.
  intros rl N W final clk stamps HN Hseq.
  assert (Hinit : inv bucket_name N W rl clk0 []).
  { split; [|split].
    - intros t [].
    - intros now _. reflexivity.
    - intros a. simpl. exact HN. }
  pose proof (run_calls_inv bucket_name N W HN cs rl clk0 [] eq_refl eq_refl Hinit Hseq)
    as (Ha & Hb & Hc).
  simpl in Ha, Hb, Hc. fold final in Hb. fold clk in Ha, Hb. fold stamps in Ha, Hb, Hc.
  split; [exact Hc|].
  intros now Hnow. unfold count_young. rewrite (Hb now Hnow).
  apply young_bounded; [exact HN| |exact Hc].
  intros t Ht. specialize (Ha t Ht). lra.
Qed.

Lemma rate_limiter_sliding_window_witness :
  let rl := RateLimiter_init (Some two_per_five) in
  let cs := [at_zero; at_zero; at_zero;
             {| bucket := "message"; at_time := 5; lateness := 1 |}] in
  (forall a, (Z.of_nat (count_in a (window_of rl "message")
                (admissions_of "message" (snd (run_calls rl 0 cs))))
              <= max_requests_of rl "message")%Z) /\
  (forall now, snd (fst (run_calls rl 0 cs)) <= now ->
     (Z.of_nat (count_young now (window_of rl "message")
                  (bucket_of (fst (fst (run_calls rl 0 cs))) "message"))
      <= max_requests_of rl "message")%Z).
Proof.
  intros rl cs.
  apply (rate_limiter_sliding_window (Some two_per_five) "message" 0 cs).
  - vm_compute. discriminate.
  - vm_compute. reflexivity.
Defined.

End RateLimiterClaims.

(** ** The limiter inside the bot *)

Section BotClaims.
Import Utils Bot.

Lemma send_message_limiter (self : DiscordUser) now late :
  rate_limiter (fst (send_message self now late))
  = fst (wait_if_needed (rate_limiter self) "message" now late) /\
  snd (send_message self now late)
  = snd (wait_if_needed (rate_limiter self) "message" now late).
Proof.
  unfold send_message.
  destruct (wait_if_needed (rate_limiter self) "message" now late). split; reflexivity.
Qed.

(** What the calls do depends on the limiter alone, and its configuration
    stays the one it was built with. *)
Lemma send_messages_limiter (calls : list (Q * Q)) : forall self self',
  rate_limiter self = rate_limiter self' ->
  rate_limiter (fst (send_messages self calls))
  = rate_limiter (fst (send_messages self' calls)) /\
  snd (send_messages self calls) = snd (send_messages self' calls) /\
  Utils.config (rate_limiter (fst (send_messages self calls)))
  = Utils.config (rate_limiter self).
Proof.
  induction calls as [|[now late] rest IH]; intros self self' Heq; simpl.
  - auto.
  - destruct (send_message_limiter self now late) as [Hl Ho].
    destruct (send_message_limiter self' now late) as [Hl' Ho'].
    destruct (send_message self now late) as [s1 o1].
    destruct (send_message self' now late) as [s2 o2]. simpl in *.
    assert (Hs : rate_limiter s1 = rate_limiter s2) by congruence.
    destruct (IH s1 s2 Hs) as (H1 & H2 & H3).
    destruct (send_messages s1 rest) as [f1 os1].
    destruct (send_messages s2 rest) as [f2 os2]. simpl in *.
    split; [exact H1|]. split; [congruence|].
    rewrite H3, Hl. apply wait_if_needed_config.
Qed.

(** With one message per minute configured, the bot still sends two
    messages in the same instant. *)
Example configured_limit_ignored :
  snd (send_messages (DiscordUser_init (load_config (Parsed one_per_minute)))
         [(0, 0); (0, 0)])
  = [Granted 0; Granted 0].
Proof. vm_compute. reflexivity. Qed.

(** C10. [DiscordUser] builds its [RateLimiter] with no configuration:
    whatever the configuration of the bot and however many messages were
    sent, the ['message'] bucket resolves to 5 requests per 5 seconds, and
    neither the limiter nor the outcome of any [send_message] depends on the
    configuration, so the [rate_limits] of [load_config] are never
    consulted. *)
Theorem bot_limiter_uses_defaults
    (cfg : Config) (calls : list (Q * Q)) :
  let bot := fst (send_messages (DiscordUser_init cfg) calls) in
  Utils.config (rate_limiter bot) = empty_config /\
  max_requests_of (rate_limiter bot) "message" = 5%Z /\
  window_of (rate_limiter bot) "message" = 5 /\
  forall cfg',
    rate_limiter (fst (send_messages (DiscordUser_init cfg') calls)) = rate_limiter bot /\
    snd (send_messages (DiscordUser_init cfg') calls)
    = snd (send_messages (DiscordUser_init cfg) calls).
Proof.
  intros bot.
  assert (Hcfg : Utils.config (rate_limiter bot) = empty_config).
  { unfold bot.
    destruct (send_messages_limiter calls (DiscordUser_init cfg) (DiscordUser_init cfg)
                eq_refl) as (_ & _ & H).
    rewrite H. reflexivity. }
  split; [exact Hcfg|].
  unfold max_requests_of, window_of, limits_of. rewrite Hcfg. simpl.
  split; [reflexivity|]. split; [reflexivity|].
  intros cfg'.
  destruct (send_messages_limiter calls (DiscordUser_init cfg') (DiscordUser_init cfg)
              eq_refl) as (H1 & H2 & _).
  split; assumption.
Qed.

End BotClaims.

(** ** The gateway: reconnecting *)

Section ReconnectClaims.
Import Gateway.

Lemma mod1_range (x : Q) : 0 <= mod1 x /\ mod1 x < 1.
Proof.
  unfold mod1. pose proof (Qfloor_le x) as Hlo. pose proof (Qlt_floor x) as Hhi.
  rewrite inject_Z_plus in Hhi. change (inject_Z 1) with 1 in Hhi. lra.
Qed.

Lemma py_min2_cases (a x : Q) :
  (py_min2 a x = x /\ x < a) \/ (py_min2 a x = a /\ a <= x).
Proof.
  unfold py_min2. destruct (Qltb x a) eqn:E.
  - left. split; [reflexivity|]. apply Qltb_lt, E.
  - right. split; [reflexivity|]. apply Qltb_ge, E.
Qed.

(** C6. After the k-th failure in a row, with k below
    [max_reconnect_attempts], the [except] branch sleeps a delay between 0
    and [min(300, 2^k + 1)]; the jitter [time.time() % 1] lies in
    [[0, 1)] whatever the clock reads. *)
Theorem backoff_delay_bounded (w : World) (k : Z) :
  reconnect_attempts (gw w) = (k - 1)%Z ->
  (1 <= k)%Z ->
  (k < max_reconnect_attempts (gw w))%Z ->
  exists delay,
    snd (connect_except w) = Some delay /\
    0 <= delay /\ delay <= py_min2 300 (2 ^ k + 1) /\
    reader (fail w) = Backoff (clock w + delay).
Proof.
  intros Hk H1 Hmax.
  assert (Hpow : 0 < 2 ^ k) by (apply Qpower_0_lt; lra).
  pose proof (mod1_range (clock w)) as [Hj0 Hj1].
  exists (py_min2 300 (2 ^ k + mod1 (clock w))).
  assert (Hdelay : 0 < py_min2 300 (2 ^ k + mod1 (clock w))).
  { destruct (py_min2_cases 300 (2 ^ k + mod1 (clock w))) as [[-> _]|[-> _]]; lra. }
  assert (Hex : connect_except w =
    (logger INFO "Reconnecting in ... seconds..."
       (logger ERROR_ "Gateway connection error"
          (with_gw (set_reconnect_attempts k (gw w)) w)),
     Some (py_min2 300 (2 ^ k + mod1 (clock w))))).
  { unfold connect_except. rewrite Hk.
    replace (k - 1 + 1)%Z with k by lia. simpl.
    apply Z.ltb_lt in Hmax. rewrite Hmax. reflexivity. }
  split; [rewrite Hex; reflexivity|].
  split; [lra|]. split.
  - destruct (py_min2_cases 300 (2 ^ k + mod1 (clock w))) as [[-> ?]|[-> ?]];
      destruct (py_min2_cases 300 (2 ^ k + 1)) as [[-> ?]|[-> ?]]; lra.
  - unfold fail. rewrite Hex. simpl. unfold asyncio_sleep.
    destruct (Qle_bool _ 0) eqn:E; [|reflexivity].
    apply Qle_bool_iff in E. lra.
Qed.

Lemma backoff_delay_bounded_witness :
  exists delay,
    snd (connect_except (boot "tok")) = Some delay /\
    0 <= delay /\ delay <= py_min2 300 (2 ^ 1 + 1) /\
    reader (fail (boot "tok")) = Backoff (clock (boot "tok") + delay).
Proof.
  apply (backoff_delay_bounded (boot "tok") 1); [reflexivity|lia|reflexivity].
Defined.

End ReconnectClaims.


(** ** The gateway: no resume without a session *)

Section StepFacts.
Import Gateway.

Lemma unresumed_refl w : unresumed w w.
Proof.
  split; [auto|]. exists []. split; [symmetry; apply app_nil_r|constructor].
Qed.

Lemma unresumed_trans a b c : unresumed a b -> unresumed b c -> unresumed a c.
Proof.
  intros (H1 & x1 & E1 & F1) (H2 & x2 & E2 & F2). split; [auto|].
  exists (x1 ++ x2). split; [rewrite E2, E1, app_assoc; reflexivity|].
  intros H. apply Forall_app. split; auto.
Qed.

(** A change that touches neither [session_id] nor the socket. *)
Lemma unresumed_same w w1 w' :
  unresumed w w1 ->
  session_id (gw w') = session_id (gw w1) -> sent w' = sent w1 ->
  unresumed w w'.
Proof.
  intros (H1 & x & E & F) Hs Hw. split; [rewrite Hs; exact H1|].
  exists x. rewrite Hw. auto.
Qed.

Lemma unresumed_clear w w1 :
  unresumed w w1 -> unresumed w (with_gw (set_session_id None (gw w1)) w1).
Proof.
  intros (H1 & x & E & F). split; [reflexivity|]. exists x. auto.
Qed.

Lemma unresumed_send p w w1 :
  payload_op p <> 6%Z -> unresumed w w1 -> unresumed w (_send_payload p w1).
Proof.
  intros Hp H. apply (unresumed_trans w w1); [exact H|].
  unfold _send_payload. destruct (ws_live (gw w1)); [|apply unresumed_refl].
  split; [auto|]. exists [p]. split.
  - unfold sent. simpl. rewrite map_app. reflexivity.
  - intros _. constructor; [exact Hp|constructor].
Qed.

Ltac peel :=
  repeat first
    [ assumption
    | apply unresumed_refl
    | apply unresumed_clear
    | apply unresumed_send; [simpl; discriminate|]
    | match goal with
      | |- unresumed ?w (logger _ _ ?w1) =>
          apply (unresumed_same w w1); [|reflexivity|reflexivity]
      | |- unresumed ?w (with_reader _ ?w1) =>
          apply (unresumed_same w w1); [|reflexivity|reflexivity]
      | |- unresumed ?w (with_tasks _ ?w1) =>
          apply (unresumed_same w w1); [|reflexivity|reflexivity]
      | |- unresumed ?w (with_clock _ ?w1) =>
          apply (unresumed_same w w1); [|reflexivity|reflexivity]
      | |- unresumed ?w (with_dispatched _ ?w1) =>
          apply (unresumed_same w w1); [|reflexivity|reflexivity]
      | |- unresumed ?w (with_gw (_ _ (gw ?w1)) ?w1) =>
          apply (unresumed_same w w1); [|reflexivity|reflexivity]
      end ].

Lemma unresumed_send_heartbeat w w1 :
  unresumed w w1 -> unresumed w (_send_heartbeat w1).
Proof. intros H. unfold _send_heartbeat. peel. Qed.

Lemma unresumed_identify w w1 : unresumed w w1 -> unresumed w (_identify w1).
Proof. intros H. unfold _identify. peel. Qed.

Lemma truthy_some v : truthy v = true -> v <> None.
Proof. destruct v; [discriminate|discriminate]. Qed.

(** A resume is written only by a handler that holds a session. *)
Lemma unresumed_resume w w1 :
  unresumed w w1 -> truthy (session_id (gw w1)) = true -> unresumed w (_resume w1).
Proof.
  intros H Ht. apply truthy_some in Ht.
  assert (Hw : session_id (gw w) <> None) by (intros E; apply Ht, H, E).
  unfold _resume.
  apply (unresumed_same w (_send_payload
           (Resume (token (gw w1)) (session_id (gw w1)) (sequence (gw w1))) w1));
    [|reflexivity|reflexivity].
  apply (unresumed_trans w w1); [exact H|].
  unfold _send_payload. destruct (ws_live (gw w1)); [|apply unresumed_refl].
  split; [auto|]. eexists [_]. split.
  - unfold sent. simpl. rewrite map_app. reflexivity.
  - intros E. contradiction.
Qed.

Lemma unresumed_close w w1 : unresumed w w1 -> unresumed w (close w1).
Proof. intros H. unfold close. destruct (ws_live (gw w1)); peel. Qed.

Lemma unresumed_handle_message data w w1 :
  unresumed w w1 -> unresumed w (fst (_handle_message data w1)).
Proof.
  intros H. unfold _handle_message.
  assert (H1 : unresumed w match s data with
                           | Some n => with_gw (set_sequence (Some n) (gw w1)) w1
                           | None => w1
                           end) by (destruct (s data); peel).
  revert H1. generalize (match s data with
                         | Some n => with_gw (set_sequence (Some n) (gw w1)) w1
                         | None => w1
                         end). intros w2 H2.
  destruct (op_is (op data) 0); [simpl; peel|].
  destruct (op_is (op data) 1); [simpl; apply unresumed_send_heartbeat, H2|].
  destruct (op_is (op data) 7); [simpl; apply unresumed_close; peel|].
  destruct (op_is (op data) 9); [simpl; peel|].
  destruct (op_is (op data) 10).
  - destruct (hello_interval (d data)) as [interval|]; [|simpl; peel].
    destruct (truthy _) eqn:Et; simpl.
    + apply unresumed_resume; [peel|exact Et].
    + apply unresumed_identify. peel.
  - destruct (op_is (op data) 11); simpl; peel.
Qed.

Lemma unresumed_heartbeat_loop i w w1 :
  unresumed w w1 -> unresumed w (_heartbeat_loop i w1).
Proof.
  intros H. unfold _heartbeat_loop.
  destruct (ws_live (gw w1)); [|peel].
  destruct (negb _); [peel|].
  assert (H1 := unresumed_send_heartbeat w w1 H).
  destruct (heartbeat_interval _); peel.
Qed.

Lemma unresumed_leave_ws w w1 : unresumed w w1 -> unresumed w (leave_ws w1).
Proof. intros H. unfold leave_ws. destruct (ws (gw w1)); peel. Qed.

Lemma unresumed_fail w w1 : unresumed w w1 -> unresumed w (fail w1).
Proof.
  intros H. unfold fail, connect_except.
  destruct (_ <? _)%Z; peel.
Qed.

Lemma unresumed_connect ok w w1 : unresumed w w1 -> unresumed w (connect ok w1).
Proof.
  intros H. unfold connect. destruct ok; [peel|].
  apply unresumed_fail. peel.
Qed.

Lemma unresumed_read_loop msg w w1 :
  unresumed w w1 -> unresumed w (read_loop msg w1).
Proof.
  intros H. unfold read_loop.
  destruct (negb _); [pose proof (unresumed_leave_ws w w1 H); peel|].
  destruct msg as [[data|]| | | ].
  - pose proof (unresumed_handle_message data w w1 H) as Hh.
    destruct (_handle_message data w1) as [w2 [ | | ]]; simpl in Hh; [peel|peel|].
    apply unresumed_fail, unresumed_leave_ws, Hh.
  - apply unresumed_fail, unresumed_leave_ws, H.
  - exact H.
  - assert (H1 : unresumed w (logger ERROR_ "Gateway error" w1)) by peel.
    pose proof (unresumed_leave_ws _ _ H1). peel.
  - assert (H1 : unresumed w (logger WARNING "Gateway connection closed" w1)) by peel.
    pose proof (unresumed_leave_ws _ _ H1). peel.
Qed.

Lemma unresumed_step (w w' : World) (e : event) :
  step w e = Some w' -> unresumed w w'.
Proof.
  destruct e as [dt|ok|msg| |i| ]; simpl; intros Hstep.
  - destruct (Qle_bool 0 dt); [|discriminate]. injection Hstep as <-. peel.
  - destruct (reader w); try discriminate. injection Hstep as <-.
    apply unresumed_connect, unresumed_refl.
  - destruct (reader w); try discriminate. injection Hstep as <-.
    apply unresumed_read_loop, unresumed_refl.
  - destruct (reader w) as [ | |wake|wake]; try discriminate;
      destruct (Qle_bool wake (clock w)); try discriminate;
      injection Hstep as <-; [apply unresumed_identify|]; peel.
  - destruct (tasks w !! i) as [[ |wake| ]|]; try discriminate.
    + injection Hstep as <-. apply unresumed_heartbeat_loop, unresumed_refl.
    + destruct (Qle_bool wake (clock w)); [|discriminate].
      injection Hstep as <-. apply unresumed_heartbeat_loop, unresumed_refl.
  - injection Hstep as <-. apply unresumed_close, unresumed_refl.
Qed.

Lemma unresumed_run (es : list event) : forall w w',
  run w es = Some w' -> unresumed w w'.
Proof.
  induction es as [|e es IH]; intros w w' Hrun; simpl in Hrun.
  - injection Hrun as <-. apply unresumed_refl.
  - destruct (step w e) as [w1|] eqn:Hstep; [|discriminate].
    apply (unresumed_trans w w1); [apply (unresumed_step w w1 e Hstep)|].
    apply IH, Hrun.
Qed.

End StepFacts.

(** ** The gateway: session state *)

Section SessionClaims.
Import Gateway.

(** The stored sequence and the session id survive the [except] branch. *)
Lemma fail_keeps_session (w : World) :
  session_id (gw (fail w)) = session_id (gw w) /\
  sequence (gw (fail w)) = sequence (gw w).
Proof.
  unfold fail, connect_except. destruct (_ <? _)%Z; split; reflexivity.
Qed.

(** C7, as stated, fails: five failures in a row after a dispatch with
    sequence 7 exhaust the attempts and the sequence is still 7; and a
    handler that holds a session at its fifth failure keeps the session. *)
Lemma exhaustion_clears_session_counterexample :
  (exists w,
     run (boot "tok")
       [Connect true; Recv (TEXT (Some (dispatch 7 "MESSAGE_CREATE")));
        Recv (TEXT None); Elapse 3; ReaderResume;
        Connect false; Elapse 5; ReaderResume;
        Connect false; Elapse 9; ReaderResume;
        Connect false; Elapse 17; ReaderResume;
        Connect false] = Some w /\
     reconnect_attempts (gw w) = max_reconnect_attempts (gw w) /\
     reader w = Idle /\
     sequence (gw w) = Some 7%Z) /\
  (let w := with_gw (set_reconnect_attempts 4 (gw (in_session "abc" 7)))
                    (in_session "abc" 7) in
   snd (connect_except w) = None /\
   session_id (gw (fail w)) = Some "abc"%string /\
   sequence (gw (fail w)) = Some 7%Z).
Proof.
  split.
  - eexists. split; [vm_compute; reflexivity|]. repeat split; reflexivity.
  - repeat split; reflexivity.
Qed.

(** C7, amended. When the attempts are exhausted the [except] branch
    raises at once, without sleeping, and leaves [session_id] and
    [sequence] as they are. *)
Theorem exhaustion_keeps_session (w : World) :
  (max_reconnect_attempts (gw w) <= reconnect_attempts (gw w) + 1)%Z ->
  snd (connect_except w) = None /\
  reader (fail w) = Idle /\
  reconnect_attempts (gw (fail w)) = (reconnect_attempts (gw w) + 1)%Z /\
  session_id (gw (fail w)) = session_id (gw w) /\
  sequence (gw (fail w)) = sequence (gw w).
Proof.
  intros Hmax. apply Z.ltb_ge in Hmax.
  unfold fail, connect_except. simpl. rewrite Hmax. simpl.
  repeat split; reflexivity.
Qed.

Lemma exhaustion_keeps_session_witness :
  let w := with_gw (set_reconnect_attempts 4 (gw (in_session "abc" 7)))
                   (in_session "abc" 7) in
  snd (connect_except w) = None /\
  reader (fail w) = Idle /\
  reconnect_attempts (gw (fail w)) = (reconnect_attempts (gw w) + 1)%Z /\
  session_id (gw (fail w)) = session_id (gw w) /\
  sequence (gw (fail w)) = sequence (gw w).
Proof.
  intros w. apply (exhaustion_keeps_session w). vm_compute. discriminate.
Defined.

(** C9, as stated, fails: a dispatch with sequence 3 after one with
    sequence 5 brings the stored sequence down from 5 to 3. *)
Lemma sequence_monotone_counterexample :
  exists w5 w3,
    run (boot "tok")
      [Connect true; Recv (TEXT (Some (hello 41250)));
       Recv (TEXT (Some (dispatch 5 "MESSAGE_CREATE")))] = Some w5 /\
    sequence (gw w5) = Some 5%Z /\
    step w5 (Recv (TEXT (Some (dispatch 3 "MESSAGE_CREATE")))) = Some w3 /\
    sequence (gw w3) = Some 3%Z /\
    (3 < 5)%Z.
Proof.
  eexists. eexists. split; [vm_compute; reflexivity|].
  split; [reflexivity|]. split; [vm_compute; reflexivity|].
  split; [reflexivity|lia].
Qed.

(** C9, amended. A frame with a non-null [s] and an opcode other than 9
    leaves exactly that [s] as the stored sequence, whatever was stored
    before; a frame without [s] and with an opcode other than 9 leaves the
    stored sequence alone. *)
Theorem sequence_overwritten (w : World) (data : frame) :
  op_is (op data) 9 = false ->
  sequence (gw (fst (_handle_message data w)))
  = match s data with
    | Some n => Some n
    | None => sequence (gw w)
    end.
Proof.
  intros H9. unfold _handle_message. rewrite H9.
  assert (Hseq : sequence (gw match s data with
                              | Some n => with_gw (set_sequence (Some n) (gw w)) w
                              | None => w
                              end)
                 = match s data with Some n => Some n | None => sequence (gw w) end)
    by (destruct (s data); reflexivity).
  revert Hseq. generalize (match s data with
                           | Some n => with_gw (set_sequence (Some n) (gw w)) w
                           | None => w
                           end). intros w1 Hseq.
  destruct (op_is (op data) 0); [exact Hseq|].
  destruct (op_is (op data) 1).
  { simpl. unfold _send_heartbeat, _send_payload. simpl.
    destruct (ws_live _); exact Hseq. }
  destruct (op_is (op data) 7).
  { simpl. unfold close. simpl. destruct (ws_live _); exact Hseq. }
  destruct (op_is (op data) 10).
  { destruct (hello_interval (d data)); [|exact Hseq].
    destruct (truthy _); simpl; unfold _resume, _identify, _send_payload; simpl;
      destruct (ws_live _); exact Hseq. }
  destruct (op_is (op data) 11); exact Hseq.
Qed.

Lemma sequence_overwritten_witness :
  sequence (gw (fst (_handle_message (dispatch 3 "MESSAGE_CREATE") (in_session "abc" 5))))
  = Some 3%Z.
Proof.
  apply (sequence_overwritten (in_session "abc" 5) (dispatch 3 "MESSAGE_CREATE")).
  reflexivity.
Defined.

End SessionClaims.

(** ** The gateway: frames *)

Section FrameClaims.
Import Gateway.

Lemma asyncio_sleep_pos (d : Q) : 0 < d -> asyncio_sleep d = d.
Proof.
  intros Hd. unfold asyncio_sleep. destruct (Qle_bool d 0) eqn:E; [|reflexivity].
  apply Qle_bool_iff in E. lra.
Qed.

Lemma ws_live_set_heartbeat_interval v g :
  ws_live (set_heartbeat_interval v g) = ws_live g.
Proof. reflexivity. Qed.


(** C8, as stated, fails: a text frame that is not valid JSON closes the
    socket, counts as a failed attempt and puts [connect] in its backoff
    sleep; and a frame with an unknown opcode leaves no log record. *)
Lemma protocol_error_skipped_counterexample :
  (exists w0 w,
     run (boot "tok") [Connect true] = Some w0 /\
     ws_live (gw w0) = true /\
     step w0 (Recv (TEXT None)) = Some w /\
     ws_live (gw w) = false /\
     reconnect_attempts (gw w) = 1%Z /\
     reader w = Backoff (0 + (2 + 0))) /\
  (exists w0 w,
     run (boot "tok") [Connect true] = Some w0 /\
     step w0 (Recv (TEXT (Some unknown_opcode))) = Some w /\
     log w = log w0).
Proof.
  split.
  - eexists. eexists. split; [vm_compute; reflexivity|].
    split; [reflexivity|]. split; [vm_compute; reflexivity|].
    repeat split; reflexivity.
  - eexists. eexists. split; [vm_compute; reflexivity|].
    split; [vm_compute; reflexivity|]. reflexivity.
Qed.

(** C8, amended. In the read loop of an open socket, a text frame with an
    opcode that has no branch is skipped without a log record: only its
    [s], if any, is stored, the socket stays open and the loop goes on.  A
    text frame that is not valid JSON raises out of the loop: the socket is
    closed, the failure counts as a reconnect attempt and the reader is
    left in its backoff sleep or, the attempts exhausted, stopped. *)
Theorem protocol_errors (w : World) :
  reader w = Reading -> ws_live (gw w) = true ->
  (forall data, known_opcode (op data) = false ->
     step w (Recv (TEXT (Some data))) = Some (note_sequence data w) /\
     log (note_sequence data w) = log w /\
     sent (note_sequence data w) = sent w /\
     ws_live (gw (note_sequence data w)) = true /\
     reader (note_sequence data w) = Reading /\
     reconnect_attempts (gw (note_sequence data w)) = reconnect_attempts (gw w)) /\
  (exists w', step w (Recv (TEXT None)) = Some w' /\
     ws_live (gw w') = false /\
     reconnect_attempts (gw w') = (reconnect_attempts (gw w) + 1)%Z /\
     sent w' = sent w /\
     (reader w' = Idle \/ exists wake, reader w' = Backoff wake)).
Proof.
  intros Hr Hlive. split.
  - intros data Hop. unfold known_opcode in Hop.
    repeat (apply orb_false_iff in Hop; destruct Hop as [Hop ?]).
    split.
    + unfold step. rewrite Hr. unfold read_loop. rewrite Hlive. simpl.
      unfold _handle_message.
      replace (op_is (op data) 0) with false by congruence.
      replace (op_is (op data) 1) with false by congruence.
      replace (op_is (op data) 7) with false by congruence.
      replace (op_is (op data) 9) with false by congruence.
      replace (op_is (op data) 10) with false by congruence.
      replace (op_is (op data) 11) with false by congruence.
      reflexivity.
    + unfold note_sequence. destruct (s data); simpl; auto.
  - unfold step. rewrite Hr. unfold read_loop. rewrite Hlive. simpl.
    eexists. split; [reflexivity|].
    assert (Hws : exists closed, ws (gw w) = Some closed).
    { unfold ws_live in Hlive. destruct (ws (gw w)); [eauto|discriminate]. }
    destruct Hws as [closed Hws].
    unfold fail, connect_except, leave_ws, ws_live. rewrite Hws. simpl.
    destruct (_ <? _)%Z; simpl; repeat split; eauto.
Qed.

Lemma protocol_errors_witness :
  let w := in_session "abc" 5 in
  (forall data, known_opcode (op data) = false ->
     step w (Recv (TEXT (Some data))) = Some (note_sequence data w) /\
     log (note_sequence data w) = log w /\
     sent (note_sequence data w) = sent w /\
     ws_live (gw (note_sequence data w)) = true /\
     reader (note_sequence data w) = Reading /\
     reconnect_attempts (gw (note_sequence data w)) = reconnect_attempts (gw w)) /\
  (exists w', step w (Recv (TEXT None)) = Some w' /\
     ws_live (gw w') = false /\
     reconnect_attempts (gw w') = (reconnect_attempts (gw w) + 1)%Z /\
     sent w' = sent w /\
     (reader w' = Idle \/ exists wake, reader w' = Backoff wake)).
Proof.
  intros w. apply (protocol_errors w); reflexivity.
Defined.




End FrameClaims.

(** ** The gateway: invalid session *)

Section InvalidSessionClaims.
Import Gateway.

(** While the reader sleeps in the opcode 9 branch, nothing but its own
    wake-up moves it, and nothing but heartbeats is written. *)
Lemma reader_waits (w2 w3 : World) (e : event) (wake : Q) :
  reader w2 = InvalidWait wake -> step w2 e = Some w3 -> e <> ReaderResume ->
  reader w3 = InvalidWait wake /\
  (sent w3 = sent w2 \/ exists seq, sent w3 = sent w2 ++ [Heartbeat seq]).
Proof.
  intros Hr Hstep Hne.
  assert (Hloop : forall i,
    reader (_heartbeat_loop i w2) = InvalidWait wake /\
    (sent (_heartbeat_loop i w2) = sent w2 \/
     exists seq, sent (_heartbeat_loop i w2) = sent w2 ++ [Heartbeat seq])).
  { intros i. unfold _heartbeat_loop, _send_heartbeat, _send_payload.
    destruct (ws_live (gw w2)) eqn:El; simpl; [|auto].
    destruct (last_heartbeat_ack (gw w2)); simpl; [|auto].
    change (ws_live (set_last_heartbeat_ack false (gw w2))) with (ws_live (gw w2)).
    rewrite El. simpl.
    destruct (heartbeat_interval (gw w2)); simpl; (split; [exact Hr|]);
      right; exists (sequence (gw w2)); unfold sent; simpl; apply map_app. }
  destruct e as [dt|ok|msg| |i| ]; simpl in Hstep.
  - destruct (Qle_bool 0 dt); [|discriminate]. injection Hstep as <-. auto.
  - rewrite Hr in Hstep. discriminate.
  - rewrite Hr in Hstep. discriminate.
  - congruence.
  - destruct (tasks w2 !! i) as [[ |wk| ]|]; try discriminate.
    + injection Hstep as <-. apply Hloop.
    + destruct (Qle_bool wk (clock w2)); [|discriminate].
      injection Hstep as <-. apply Hloop.
  - injection Hstep as <-. unfold close. destruct (ws_live (gw w2)); auto.
Qed.

(** C4, as stated, fails: a heartbeat falls due during the five seconds
    of the opcode 9 branch, so the next payload written after the frame is
    a heartbeat, and the identify comes after it. *)
Lemma invalid_session_next_payload_counterexample :
  exists w9 w,
    run (boot "tok")
      [Connect true; Recv (TEXT (Some (hello 3000))); HeartbeatRun 0;
       Recv (TEXT (Some heartbeat_ack)); Elapse 2;
       Recv (TEXT (Some invalid_session))] = Some w9 /\
    sent w9 = [Identify "tok" identify_properties; Heartbeat None] /\
    run w9 [Elapse 1; HeartbeatRun 0; Elapse 4; ReaderResume] = Some w /\
    sent w = sent w9 ++ [Heartbeat None; Identify "tok" identify_properties].
Proof.
  eexists. eexists. split; [vm_compute; reflexivity|].
  split; [reflexivity|]. split; [vm_compute; reflexivity|]. reflexivity.
Qed.

(** C4, amended. In the read loop of an open socket, an INVALID SESSION
    frame unsets [session_id] and [sequence] and suspends the reader for 5
    seconds, whether or not a session existed.  While it waits, only
    heartbeats of the heartbeat loop can be written; it cannot go on before
    the 5 seconds are over; when it goes on it writes an identify (nothing
    if the socket was closed meanwhile).  From the frame on no resume is
    ever written. *)
Theorem invalid_session_reidentifies (w : World) (data : frame) :
  reader w = Reading -> ws_live (gw w) = true -> op data = Some 9%Z ->
  exists w1,
    step w (Recv (TEXT (Some data))) = Some w1 /\
    session_id (gw w1) = None /\ sequence (gw w1) = None /\
    sent w1 = sent w /\
    reader w1 = InvalidWait (clock w + 5) /\
    (forall w2, reader w2 = InvalidWait (clock w + 5) ->
       (forall e w3, step w2 e = Some w3 -> e <> ReaderResume ->
          reader w3 = InvalidWait (clock w + 5) /\
          (sent w3 = sent w2 \/ exists seq, sent w3 = sent w2 ++ [Heartbeat seq])) /\
       (clock w2 < clock w + 5 -> step w2 ReaderResume = None) /\
       (clock w + 5 <= clock w2 ->
          exists w3,
            step w2 ReaderResume = Some w3 /\ reader w3 = Reading /\
            sent w3 = sent w2 ++
              (if ws_live (gw w2)
               then [Identify (token (gw w2)) identify_properties] else []))) /\
    (forall es w2, run w1 es = Some w2 ->
       exists extra,
         sent w2 = sent w1 ++ extra /\
         Forall (fun p => payload_op p <> 6%Z) extra).
Proof.
  intros Hr Hlive Hop.
  assert (Hstep : exists w1,
    step w (Recv (TEXT (Some data))) = Some w1 /\
    session_id (gw w1) = None /\ sequence (gw w1) = None /\
    sent w1 = sent w /\ reader w1 = InvalidWait (clock w + 5)).
  { unfold step. rewrite Hr. unfold read_loop. rewrite Hlive. simpl.
    unfold _handle_message. rewrite Hop. simpl.
    eexists. split; [reflexivity|].
    destruct (s data); simpl; repeat split; reflexivity. }
  destruct Hstep as (w1 & Hstep & Hsid & Hseq & Hsent & Hread).
  exists w1. repeat (split; [assumption|]). split.
  - intros w2 Hr2. split; [|split].
    + intros e w3 Hs Hne. apply (reader_waits w2 w3 e _ Hr2 Hs Hne).
    + intros Hearly. simpl. rewrite Hr2.
      destruct (Qle_bool (clock w + 5) (clock w2)) eqn:E; [|reflexivity].
      apply Qle_bool_iff in E. lra.
    + intros Hlate. simpl. rewrite Hr2.
      apply Qle_bool_iff in Hlate. rewrite Hlate.
      eexists. split; [reflexivity|].
      unfold _identify, _send_payload. simpl.
      change (ws_live (gw (with_reader Reading w2))) with (ws_live (gw w2)).
      destruct (ws_live (gw w2)); (split; [reflexivity|]); unfold sent; simpl.
      * apply map_app.
      * symmetry. apply app_nil_r.
  - intros es w2 Hrun.
    destruct (unresumed_run es w1 w2 Hrun) as (_ & extra & Hx & Hf).
    exists extra. split; [exact Hx|]. apply Hf, Hsid.
Qed.

Lemma invalid_session_reidentifies_witness :
  let w := in_session "abc" 4 in
  exists w1,
    step w (Recv (TEXT (Some invalid_session))) = Some w1 /\
    session_id (gw w1) = None /\ sequence (gw w1) = None /\
    sent w1 = sent w /\
    reader w1 = InvalidWait (clock w + 5) /\
    (forall w2, reader w2 = InvalidWait (clock w + 5) ->
       (forall e w3, step w2 e = Some w3 -> e <> ReaderResume ->
          reader w3 = InvalidWait (clock w + 5) /\
          (sent w3 = sent w2 \/ exists seq, sent w3 = sent w2 ++ [Heartbeat seq])) /\
       (clock w2 < clock w + 5 -> step w2 ReaderResume = None) /\
       (clock w + 5 <= clock w2 ->
          exists w3,
            step w2 ReaderResume = Some w3 /\ reader w3 = Reading /\
            sent w3 = sent w2 ++
              (if ws_live (gw w2)
               then [Identify (token (gw w2)) identify_properties] else []))) /\
    (forall es w2, run w1 es = Some w2 ->
       exists extra,
         sent w2 = sent w1 ++ extra /\
         Forall (fun p => payload_op p <> 6%Z) extra).
Proof.
  intros w. apply (invalid_session_reidentifies w invalid_session); reflexivity.
Defined.

End InvalidSessionClaims.

(** ** The gateway: the heartbeat loop *)

Section HeartbeatClaims.
Import Gateway.

(** The interval of the sample HELLO frame, in seconds. *)
Example hello_interval_41250 :
  exists interval,
    hello_interval (d (hello 41250)) = Some interval /\ interval == 165 # 4.
Proof. eexists. split; reflexivity. Qed.

(** An interval of 401 digits does not fit a float: the division raises. *)
Example hello_interval_overflow : hello_interval (d (hello (10 ^ 400))) = None.
Proof. vm_compute. reflexivity. Qed.

(** What handling a HELLO frame leaves behind, apart from the payload. *)
Lemma hello_step (w : World) (data : frame) (interval : Q) :
  reader w = Reading -> ws_live (gw w) = true ->
  op data = Some 10%Z -> hello_interval (d data) = Some interval ->
  exists w1,
    step w (Recv (TEXT (Some data))) = Some w1 /\
    clock w1 = clock w /\
    tasks w1 = tasks w ++ [HbNew] /\
    ws_live (gw w1) = true /\
    last_heartbeat_ack (gw w1) = last_heartbeat_ack (gw w) /\
    heartbeat_interval (gw w1) = Some interval.
Proof.
  intros Hr Hlive Hop Hiv.
  unfold step. rewrite Hr. unfold read_loop. rewrite Hlive. simpl.
  unfold _handle_message. rewrite Hop, Hiv. simpl.
  eexists. split; [reflexivity|].
  unfold _resume, _identify, _send_payload.
  destruct (s data); simpl; rewrite !ws_live_set_heartbeat_interval;
    change (ws_live (set_sequence _ (gw w))) with (ws_live (gw w));
    rewrite Hlive; destruct (truthy (session_id (gw w))); simpl;
    repeat split; try reflexivity; exact Hlive.
Qed.

(** The first turn of a heartbeat task: no sleep comes before the send. *)
Lemma heartbeat_first_turn (w1 : World) (i : nat) (interval : Q) :
  tasks w1 !! i = Some HbNew -> ws_live (gw w1) = true ->
  last_heartbeat_ack (gw w1) = true ->
  heartbeat_interval (gw w1) = Some interval ->
  exists w2,
    step w1 (HeartbeatRun i) = Some w2 /\
    wire w2 = wire w1 ++ [(clock w1, Heartbeat (sequence (gw w1)))] /\
    tasks w2 = <[i := HbSleeping (clock w1 + asyncio_sleep interval)]> (tasks w1).
Proof.
  intros Ht Hlive Hack Hiv. simpl. rewrite Ht.
  unfold _heartbeat_loop. rewrite Hlive, Hack. simpl.
  unfold _send_heartbeat, _send_payload. simpl.
  change (ws_live (set_last_heartbeat_ack false (gw w1))) with (ws_live (gw w1)).
  rewrite Hlive. simpl. rewrite Hiv.
  eexists. split; [reflexivity|]. split; reflexivity.
Qed.

(** A sleeping heartbeat task is not scheduled before its time. *)
Lemma heartbeat_sleeps (w3 : World) (i : nat) (wake : Q) :
  tasks w3 !! i = Some (HbSleeping wake) -> clock w3 < wake ->
  step w3 (HeartbeatRun i) = None.
Proof.
  intros Ht Hearly. simpl. rewrite Ht.
  destruct (Qle_bool wake (clock w3)) eqn:E; [|reflexivity].
  apply Qle_bool_iff in E. lra.
Qed.

(** C3, as stated, fails: the heartbeat task created by HELLO writes its
    first heartbeat at the time of the HELLO frame itself, 0 here, not
    41.25 seconds later. *)
Lemma first_heartbeat_waits_counterexample :
  exists w,
    run (boot "tok")
      [Connect true; Recv (TEXT (Some (hello 41250))); HeartbeatRun 0] = Some w /\
    clock w = 0 /\
    wire w = [(0, Identify "tok" identify_properties); (0, Heartbeat None)].
Proof.
  eexists. split; [vm_compute; reflexivity|]. split; reflexivity.
Qed.

(** C3, amended. In the read loop of an open socket, with the last
    heartbeat acknowledged, a HELLO frame whose [heartbeat_interval] line 94
    can divide (a number that fits a float) starts a heartbeat task that
    can run at once and writes its first heartbeat before any sleep.  Only
    then does it sleep the interval (a delay that is not positive only
    yields), and it cannot run again before that sleep is over: 41.25
    seconds for 41250 milliseconds. *)
Theorem first_heartbeat_at_once (w : World) (data : frame) (interval : Q) :
  reader w = Reading -> ws_live (gw w) = true ->
  last_heartbeat_ack (gw w) = true ->
  op data = Some 10%Z -> hello_interval (d data) = Some interval ->
  exists w1 w2,
    step w (Recv (TEXT (Some data))) = Some w1 /\
    clock w1 = clock w /\
    tasks w1 = tasks w ++ [HbNew] /\
    step w1 (HeartbeatRun (length (tasks w))) = Some w2 /\
    wire w2 = wire w1 ++ [(clock w, Heartbeat (sequence (gw w1)))] /\
    tasks w2 = tasks w ++ [HbSleeping (clock w + asyncio_sleep interval)] /\
    (0 < interval -> asyncio_sleep interval = interval) /\
    (forall w3, tasks w3 = tasks w2 ->
       clock w3 < clock w + asyncio_sleep interval ->
       step w3 (HeartbeatRun (length (tasks w))) = None).
Proof.
  intros Hr Hlive Hack Hop Hiv.
  destruct (hello_step w data interval Hr Hlive Hop Hiv)
    as (w1 & Hstep & Hclk & Htasks & Hl1 & Hack1 & Hiv1).
  assert (Hnew : tasks w1 !! length (tasks w) = Some HbNew).
  { rewrite Htasks. apply list_lookup_middle. reflexivity. }
  rewrite Hack in Hack1.
  destruct (heartbeat_first_turn w1 _ interval Hnew Hl1 Hack1 Hiv1)
    as (w2 & Hrun & Hwire & Htasks2).
  assert (Hsleep : tasks w2
                   = tasks w ++ [HbSleeping (clock w + asyncio_sleep interval)]).
  { rewrite Htasks2, Htasks, Hclk.
    rewrite insert_app_r_alt by lia. rewrite Nat.sub_diag. reflexivity. }
  exists w1, w2. rewrite Hclk in Hwire.
  repeat (split; [assumption|]).
  split; [apply asyncio_sleep_pos|].
  intros w3 Ht3 Hearly.
  apply (heartbeat_sleeps w3 _ (clock w + asyncio_sleep interval)); [|exact Hearly].
  rewrite Ht3, Hsleep. apply list_lookup_middle. reflexivity.
Qed.

Lemma first_heartbeat_at_once_witness :
  let w := in_session "abc" 4 in
  let interval := inject_Z 41250 / 1000 in
  exists w1 w2,
    step w (Recv (TEXT (Some (hello 41250)))) = Some w1 /\
    clock w1 = clock w /\
    tasks w1 = tasks w ++ [HbNew] /\
    step w1 (HeartbeatRun (length (tasks w))) = Some w2 /\
    wire w2 = wire w1 ++ [(clock w, Heartbeat (sequence (gw w1)))] /\
    tasks w2 = tasks w ++ [HbSleeping (clock w + asyncio_sleep interval)] /\
    (0 < interval -> asyncio_sleep interval = interval) /\
    (forall w3, tasks w3 = tasks w2 ->
       clock w3 < clock w + asyncio_sleep interval ->
       step w3 (HeartbeatRun (length (tasks w))) = None).
Proof.
  intros w interval.
  apply (first_heartbeat_at_once w (hello 41250) interval);
    reflexivity.
Defined.

(** The heartbeat loop never touches the socket or the reader, whichever
    way a turn of it goes. *)
Lemma heartbeat_loop_keeps_socket (i : nat) (w : World) :
  ws (gw (_heartbeat_loop i w)) = ws (gw w) /\
  reader (_heartbeat_loop i w) = reader w /\
  reconnect_attempts (gw (_heartbeat_loop i w)) = reconnect_attempts (gw w).
Proof.
  unfold _heartbeat_loop, _send_heartbeat, _send_payload.
  destruct (ws_live (gw w)) eqn:El; simpl; [|auto].
  destruct (last_heartbeat_ack (gw w)); simpl; [|auto].
  change (ws_live (set_last_heartbeat_ack false (gw w))) with (ws_live (gw w)).
  rewrite El. simpl. destruct (heartbeat_interval (gw w)); simpl; auto.
Qed.

(** C2: what the code does.  With no acknowledgment after the first
    heartbeat, the loop finds [last_heartbeat_ack] false at its next turn,
    logs a warning and ends; the socket stays open and the reader keeps
    reading, so two heartbeat requests of the gateway are still answered: a
    third heartbeat is written on a connection that was never closed, and
    no reconnect attempt was counted. *)
Theorem unacknowledged_heartbeat_leaves_socket_open :
  exists w,
    run (boot "tok")
      [Connect true; Recv (TEXT (Some (hello 41250))); HeartbeatRun 0;
       Elapse (165 # 4); HeartbeatRun 0;
       Recv (TEXT (Some heartbeat_request));
       Recv (TEXT (Some heartbeat_request))] = Some w /\
    sent w = [Identify "tok" identify_properties;
              Heartbeat None; Heartbeat None; Heartbeat None] /\
    tasks w = [HbDone] /\
    last_heartbeat_ack (gw w) = false /\
    ws_live (gw w) = true /\
    reader w = Reading /\
    reconnect_attempts (gw w) = 0%Z.
Proof.
  eexists. split; [vm_compute; reflexivity|]. repeat split; reflexivity.
Qed.

End HeartbeatClaims.

(** ** Python strings: slices, searches and strips *)

Section PyFacts.
Import Py.

Lemma len_app (a b : str) : len (a ++ b) = (len a + len b)%Z.
Proof. unfold len. rewrite length_app. lia. Qed.

Lemma clamp_le (s : str) (i : Z) : (clamp (len s) i <= length s)%nat.
Proof.
  unfold clamp, len.
  destruct (i <? 0)%Z eqn:E; [apply Z.ltb_lt in E|apply Z.ltb_ge in E]; lia.
Qed.

Lemma clamp_nonneg (s : str) (i : Z) :
  (0 <= i)%Z -> Z.of_nat (clamp (len s) i) = Z.min i (len s).
Proof.
  intros Hi. unfold clamp, len.
  destruct (i <? 0)%Z eqn:E; [apply Z.ltb_lt in E; lia|lia].
Qed.

Lemma clamp_neg (s : str) (i : Z) :
  (i < 0)%Z -> Z.of_nat (clamp (len s) i) = Z.max (i + len s) 0.
Proof.
  intros Hi. unfold clamp, len.
  destruct (i <? 0)%Z eqn:E; [lia|apply Z.ltb_ge in E; lia].
Qed.

Lemma slice_to (s : str) (k : Z) :
  slice None (Some k) s = take (clamp (len s) k) s.
Proof. unfold slice. simpl. rewrite Nat.sub_0_r. reflexivity. Qed.

Lemma slice_from (s : str) (k : Z) :
  slice (Some k) None s = drop (clamp (len s) k) s.
Proof. unfold slice. apply take_ge. rewrite length_drop. lia. Qed.

(** [s[:k] + s[k:]] is [s], for every [k]. *)
Lemma slice_split (s : str) (k : Z) :
  slice None (Some k) s ++ slice (Some k) None s = s.
Proof. rewrite slice_to, slice_from. apply take_drop. Qed.

Lemma rfind_from_spec (sub s : str) (lo n : nat) :
  rfind_from sub s lo n = (-1)%Z \/
  exists i, rfind_from sub s lo n = Z.of_nat i /\
            (lo <= i < lo + n)%nat /\ matches_at sub s i = true.
Proof.
  induction n as [|n IH]; simpl; [left; reflexivity|].
  destruct (matches_at sub s (lo + n)) eqn:E.
  - right. exists (lo + n)%nat. split; [reflexivity|]. split; [lia|exact E].
  - destruct IH as [IH|(i & Hi & Hr & Hm)]; [left; exact IH|].
    right. exists i. split; [exact Hi|]. split; [lia|exact Hm].
Qed.

(** What [rfind] from index 0 returns: [-1], or an index at which [sub]
    occurs and ends within the first [end_] characters. *)
Lemma rfind_spec (sub s : str) (end_ : Z) :
  (0 <= end_)%Z ->
  rfind sub 0 end_ s = (-1)%Z \/
  exists i, rfind sub 0 end_ s = Z.of_nat i /\
            (Z.of_nat i + len sub <= end_)%Z /\ matches_at sub s i = true.
Proof.
  intros He. unfold rfind.
  destruct (rfind_from_spec sub s (clamp (len s) 0) (S (clamp (len s) end_) -
            (clamp (len s) 0 + length sub))) as [H|(i & Hi & Hr & Hm)];
    [left; exact H|].
  right. exists i. split; [exact Hi|]. split; [|exact Hm].
  pose proof (clamp_nonneg s end_ He). unfold len in *. lia.
Qed.

Lemma matches_at_elem (sub s : str) (i : nat) (c : N) :
  matches_at sub s i = true -> In c sub -> In c s.
Proof.
  unfold matches_at. intros Hm Hc. apply bool_decide_eq_true in Hm.
  rewrite <- Hm in Hc. apply list_elem_of_In in Hc.
  apply list_elem_of_In.
  apply (subseteq_take (length sub)) in Hc.
  apply (subseteq_drop i) in Hc. exact Hc.
Qed.

Lemma lstrip_length (s : str) : (length (lstrip s) <= length s)%nat.
Proof.
  induction s as [|c s IH]; simpl; [lia|]. destruct (isspace c); simpl; lia.
Qed.

Lemma rstrip_length (s : str) : (length (rstrip s) <= length s)%nat.
Proof.
  unfold rstrip. rewrite length_rev.
  pose proof (lstrip_length (rev s)) as H. rewrite length_rev in H. exact H.
Qed.

Lemma strip_length (s : str) : (length (strip s) <= length s)%nat.
Proof.
  unfold strip. pose proof (rstrip_length (lstrip s)).
  pose proof (lstrip_length s). lia.
Qed.

End PyFacts.

(** ** utils.py: text helpers *)

Section TextFacts.
Import Py Text.

(** X1. [format_time] splits [int(seconds)] into days, hours, minutes and
    seconds that add up to it again, with hours below 24 and minutes and
    seconds below 60 and none of the three negative; a negative duration
    shows as a negative number of days. *)
Theorem time_parts_sum (seconds : Q) :
  let '(days, hours, minutes, secs) := time_parts seconds in
  (days * 86400 + hours * 3600 + minutes * 60 + secs = int seconds)%Z /\
  (0 <= hours < 24)%Z /\ (0 <= minutes < 60)%Z /\ (0 <= secs < 60)%Z /\
  ((days < 0)%Z <-> (int seconds < 0)%Z).
Proof.
  unfold time_parts. generalize (int seconds). intros n.
  Z.div_mod_to_equations. lia.
Qed.

(** X2. With [max_length] at least 3, [truncate_text] returns the text
    itself when it fits, and otherwise its first [max_length - 3]
    characters followed by three dots: exactly [max_length] characters. *)
Theorem truncate_text_fits (text : str) (max_length : Z) :
  (3 <= max_length)%Z ->
  (len (truncate_text text max_length) <= max_length)%Z /\
  ((len text <= max_length)%Z -> truncate_text text max_length = text) /\
  ((max_length < len text)%Z ->
     truncate_text text max_length
     = take (Z.to_nat (max_length - 3)) text ++ lit "..." /\
     len (truncate_text text max_length) = max_length).
Proof.
  intros H3. unfold truncate_text.
  destruct (len text <=? max_length)%Z eqn:E.
  - apply Z.leb_le in E. split; [exact E|]. split; [reflexivity|lia].
  - apply Z.leb_gt in E.
    assert (Hc : clamp (len text) (max_length - 3) = Z.to_nat (max_length - 3)).
    { apply Nat2Z.inj. rewrite clamp_nonneg by lia. lia. }
    rewrite slice_to, Hc.
    assert (Hl : len (take (Z.to_nat (max_length - 3)) text ++ lit "...") = max_length).
    { rewrite len_app. unfold len at 1. rewrite length_take. unfold len in E.
      change (len (lit "...")) with 3%Z. lia. }
    split; [lia|]. split; [lia|]. intros _. split; [reflexivity|exact Hl].
Qed.

Lemma truncate_text_fits_witness :
  (len (truncate_text (lit "abcdefghij") 5) <= 5)%Z /\
  ((len (lit "abcdefghij") <= 5)%Z ->
     truncate_text (lit "abcdefghij") 5 = lit "abcdefghij") /\
  ((5 < len (lit "abcdefghij"))%Z ->
     truncate_text (lit "abcdefghij") 5
     = take (Z.to_nat (5 - 3)) (lit "abcdefghij") ++ lit "..." /\
     len (truncate_text (lit "abcdefghij") 5) = 5%Z).
Proof. apply (truncate_text_fits (lit "abcdefghij") 5). lia. Defined.

(** X3. With [max_length] below 3, a text longer than [max_length] comes
    back longer than [max_length]: the slice bound [max_length - 3] is
    negative and counts from the end, so the result has
    [max(len(text) + max_length, 3)] characters. *)
Theorem truncate_text_overlong (text : str) (max_length : Z) :
  (max_length < 3)%Z -> (max_length < len text)%Z ->
  len (truncate_text text max_length) = Z.max (len text + max_length) 3 /\
  (max_length < len (truncate_text text max_length))%Z.
Proof.
  intros H3 Hlong. unfold truncate_text.
  destruct (len text <=? max_length)%Z eqn:E; [apply Z.leb_le in E; lia|].
  rewrite slice_to, len_app. change (len (lit "...")) with 3%Z.
  unfold len at 1 3. rewrite length_take.
  pose proof (clamp_neg text (max_length - 3) ltac:(lia)) as Hc.
  pose proof (clamp_le text (max_length - 3)) as Hle.
  unfold len in *. lia.
Qed.

Lemma truncate_text_overlong_witness :
  len (truncate_text (lit "abcdef") 2) = Z.max (len (lit "abcdef") + 2) 3 /\
  (2 < len (truncate_text (lit "abcdef") 2))%Z.
Proof. apply (truncate_text_overlong (lit "abcdef") 2); [lia|vm_compute; reflexivity]. Defined.

Lemma reserved_underscore : reserved 95 = false.
Proof. reflexivity. Qed.

Lemma sanitize_filename_take (filename : str) :
  sanitize_filename filename
  = take 255 (List.filter (fun c => negb (control c))
                (map (fun c => if reserved c then 95%N else c) filename)).
Proof.
  unfold sanitize_filename. rewrite slice_to.
  set (l := List.filter _ _).
  destruct (Nat.le_gt_cases (length l) 255) as [Hs|Hl].
  - rewrite !take_ge; [reflexivity|exact Hs|].
    assert (Z.of_nat (clamp (len l) 255) = Z.min 255 (len l))
      by (apply clamp_nonneg; lia).
    unfold len in *. lia.
  - f_equal. apply Nat2Z.inj. rewrite clamp_nonneg by lia. unfold len. lia.
Qed.

(** X4. A sanitized file name has at most 255 characters, none of them
    reserved ([<>:], the double quote, [/], the backslash, [|?*]) and none
    a control character. *)
Theorem sanitize_filename_clean (filename : str) :
  (length (sanitize_filename filename) <= 255)%nat /\
  Forall (fun c => clean c = true) (sanitize_filename filename).
Proof.
  rewrite sanitize_filename_take. split.
  - rewrite length_take. lia.
  - apply Forall_forall. intros c Hc.
    apply (subseteq_take 255) in Hc. rewrite list_elem_of_In in Hc.
    apply filter_In in Hc. destruct Hc as [Hc Hctl].
    apply in_map_iff in Hc. destruct Hc as (c0 & Hc0 & _).
    unfold clean. rewrite Hctl, andb_true_r.
    destruct (reserved c0) eqn:E; subst c; [reflexivity|]. rewrite E. reflexivity.
Qed.

(** X5. [sanitize_filename] leaves a name as it is exactly when the name
    has at most 255 characters, none reserved and none a control
    character. *)
Theorem sanitize_filename_fixed (filename : str) :
  sanitize_filename filename = filename <->
  (length filename <= 255)%nat /\ Forall (fun c => clean c = true) filename.
Proof.
  split.
  - intros H. rewrite <- H. apply sanitize_filename_clean.
  - intros [Hlen Hclean]. rewrite sanitize_filename_take.
    assert (Hmap : map (fun c => if reserved c then 95%N else c) filename = filename).
    { rewrite <- (map_id filename) at 2. apply map_ext_in. intros c Hc.
      rewrite Forall_forall in Hclean. rewrite <- list_elem_of_In in Hc.
      specialize (Hclean c Hc).
      unfold clean in Hclean. apply andb_true_iff in Hclean.
      destruct Hclean as [Hr _]. apply negb_true_iff in Hr. rewrite Hr. reflexivity. }
    rewrite Hmap.
    assert (Hfil : List.filter (fun c => negb (control c)) filename = filename).
    { clear Hmap Hlen. induction Hclean as [|c l Hc _ IH]; simpl; [reflexivity|].
      unfold clean in Hc. apply andb_true_iff in Hc. destruct Hc as [_ Hc].
      rewrite Hc, IH. reflexivity. }
    rewrite Hfil. apply take_ge. exact Hlen.
Qed.

(** X6. Sanitizing twice is sanitizing once. *)
Theorem sanitize_filename_idempotent (filename : str) :
  sanitize_filename (sanitize_filename filename) = sanitize_filename filename.
Proof. apply sanitize_filename_fixed, sanitize_filename_clean. Qed.

End TextFacts.

(** ** utils.py: splitting a long message *)

Section ChunkFacts.
Import Py Text.

Lemma ink_app (a b : str) : ink (a ++ b) = ink a ++ ink b.
Proof. apply List.filter_app. Qed.

Lemma ink_lstrip (s : str) : ink (lstrip s) = ink s.
Proof.
  induction s as [|c s IH]; [reflexivity|].
  cbn [lstrip]. destruct (isspace c) eqn:E; [|reflexivity].
  rewrite IH. unfold ink. cbn [List.filter]. rewrite E. reflexivity.
Qed.

Lemma ink_rev (s : str) : ink (rev s) = rev (ink s).
Proof.
  induction s as [|c s IH]; [reflexivity|].
  cbn [rev]. rewrite ink_app, IH. unfold ink. cbn [List.filter].
  destruct (isspace c); cbn [negb rev]; [apply app_nil_r|reflexivity].
Qed.

Lemma ink_strip (s : str) : ink (strip s) = ink s.
Proof.
  unfold strip, rstrip.
  rewrite ink_rev, ink_lstrip, ink_rev, rev_involutive. apply ink_lstrip.
Qed.

Lemma lstrip_solid (s : str) : solid s -> lstrip s = s.
Proof. intros H. destruct H as [|c s Hc _]; simpl; [reflexivity|]. rewrite Hc. reflexivity. Qed.

Lemma strip_solid (s : str) : solid s -> strip s = s.
Proof.
  intros H. unfold strip, rstrip. rewrite (lstrip_solid s H).
  rewrite lstrip_solid; [apply rev_involutive|].
  unfold solid. apply Forall_rev. exact H.
Qed.

(** The cut lies between 0 and [max_length]. *)
Lemma split_pos_range (content : str) (max_length : Z) :
  (0 <= max_length)%Z ->
  (0 <= split_pos content max_length <= max_length)%Z.
Proof.
  intros Hm. unfold split_pos.
  destruct (rfind_spec (lit (String "010" "")) content max_length Hm)
    as [H1|(i & H1 & Hi & _)]; rewrite H1; simpl.
  - destruct (rfind_spec (lit ". ") content max_length Hm)
      as [H2|(i & H2 & Hi & _)]; rewrite H2; simpl; [lia|].
    destruct (Z.of_nat i =? -1)%Z eqn:E; [lia|].
    change (len (lit ". ")) with 2%Z in Hi. lia.
  - destruct (Z.of_nat i =? -1)%Z eqn:E; [apply Z.eqb_eq in E; lia|].
    rewrite E. change (len (lit (String "010" ""))) with 1%Z in Hi. lia.
Qed.

(** In a text without white space there is neither a newline nor a full
    stop followed by a space: the cut falls at [max_length]. *)
Lemma split_pos_solid (content : str) (max_length : Z) :
  (0 <= max_length)%Z -> solid content -> split_pos content max_length = max_length.
Proof.
  intros Hm Hs. unfold split_pos.
  assert (Hno : forall c, isspace c = true -> ~ In c content).
  { intros c Hc Hin. unfold solid in Hs. rewrite Forall_forall in Hs.
    rewrite <- list_elem_of_In in Hin. specialize (Hs c Hin). congruence. }
  destruct (rfind_spec (lit (String "010" "")) content max_length Hm)
    as [H1|(i & _ & _ & Hmatch)].
  - rewrite H1. simpl.
    destruct (rfind_spec (lit ". ") content max_length Hm)
      as [H2|(i & _ & _ & Hmatch)]; [rewrite H2; reflexivity|].
    exfalso. apply (Hno 32%N eq_refl).
    apply (matches_at_elem _ _ _ _ Hmatch). right. left. reflexivity.
  - exfalso. apply (Hno 10%N eq_refl).
    apply (matches_at_elem _ _ _ _ Hmatch). left. reflexivity.
Qed.

(** More fuel does not change what the loop returns. *)
Lemma chunk_loop_more_fuel (max_length : Z) (fuel : nat) :
  forall content chunks r fuel',
    chunk_loop fuel content max_length chunks = Some r ->
    (fuel <= fuel')%nat ->
    chunk_loop fuel' content max_length chunks = Some r.
Proof.
  induction fuel as [|fuel IH]; intros content chunks r fuel' Hr Hle;
    [discriminate|].
  destruct fuel' as [|fuel']; [lia|].
  simpl in Hr |- *. destruct content as [|c rest]; [exact Hr|].
  destruct (len (c :: rest) <=? max_length)%Z; [exact Hr|].
  apply IH; [exact Hr|lia].
Qed.

(** With enough fuel the loop returns; what it adds to the chunks are
    pieces of at most [max_length + 1] characters that carry every
    character of the content that is not white space, in order. *)
Lemma chunk_loop_spec (max_length : Z) :
  (0 <= max_length)%Z ->
  forall fuel content chunks,
    (length content < fuel)%nat ->
    exists out,
      chunk_loop fuel content max_length chunks = Some (chunks ++ out) /\
      Forall (fun m => (len m <= max_length + 1)%Z) out /\
      ink (concat out) = ink content.
Proof.
  intros Hm fuel. induction fuel as [|fuel IH]; intros content chunks Hf; [lia|].
  simpl. destruct content as [|c rest] eqn:Ec.
  - exists []. rewrite app_nil_r. repeat split. constructor.
  - rewrite <- Ec in *.
    destruct (len content <=? max_length)%Z eqn:E.
    + apply Z.leb_le in E. exists [content]. split; [reflexivity|]. split.
      * constructor; [lia|constructor].
      * simpl. rewrite app_nil_r. reflexivity.
    + apply Z.leb_gt in E.
      pose proof (split_pos_range content max_length Hm) as Hp.
      set (p := split_pos content max_length) in *.
      assert (Hk : Z.of_nat (clamp (len content) (p + 1)) = (p + 1)%Z)
        by (rewrite clamp_nonneg by lia; lia).
      rewrite slice_to, slice_from.
      set (k := clamp (len content) (p + 1)) in *.
      destruct (IH (lstrip (drop k content)) (chunks ++ [strip (take k content)]))
        as (out & Hout & Hsize & Hink).
      { pose proof (lstrip_length (drop k content)) as Hl.
        rewrite length_drop in Hl. unfold len in E. lia. }
      exists (strip (take k content) :: out). split; [|split].
      * rewrite Hout, <- app_assoc. reflexivity.
      * constructor; [|exact Hsize].
        pose proof (strip_length (take k content)) as Hl.
        rewrite length_take in Hl. unfold len. lia.
      * simpl. rewrite ink_app, Hink, ink_strip, ink_lstrip, <- ink_app, take_drop.
        reflexivity.
Qed.

(** X7. With [max_length] not negative, [safe_send_message] always comes
    back: the loop ends within [len(content)] turns, with the same
    messages however much longer it is allowed to run. *)
Theorem safe_send_message_ends (content : str) (max_length : Z) :
  (0 <= max_length)%Z ->
  exists msgs, forall fuel,
    (length content < fuel)%nat ->
    safe_send_message fuel content max_length = Some msgs.
Proof.
  intros Hm. unfold safe_send_message.
  destruct (len content <=? max_length)%Z; [exists [content]; reflexivity|].
  destruct (chunk_loop_spec max_length Hm (S (length content)) content [])
    as (out & Hout & _); [lia|].
  exists out. intros fuel Hf.
  apply (chunk_loop_more_fuel max_length (S (length content))); [exact Hout|lia].
Qed.

Lemma safe_send_message_ends_witness :
  exists msgs, forall fuel,
    (length (lit "abcdefgh") < fuel)%nat ->
    safe_send_message fuel (lit "abcdefgh") 5 = Some msgs.
Proof. apply (safe_send_message_ends (lit "abcdefgh") 5). lia. Defined.

(** What [safe_send_message] returns, it also returns with all the fuel it
    can need. *)
Lemma safe_send_message_spec (fuel : nat) (content : str) (max_length : Z)
    (msgs : list str) :
  (0 <= max_length)%Z ->
  safe_send_message fuel content max_length = Some msgs ->
  Forall (fun m => (len m <= max_length + 1)%Z) msgs /\
  ink (concat msgs) = ink content.
Proof.
  intros Hm. unfold safe_send_message.
  destruct (len content <=? max_length)%Z eqn:E.
  - apply Z.leb_le in E. intros [= <-]. split.
    + constructor; [lia|constructor].
    + simpl. rewrite app_nil_r. reflexivity.
  - intros Hr.
    destruct (chunk_loop_spec max_length Hm (S (fuel + length content)) content [])
      as (out & Hout & Hsize & Hink); [lia|].
    apply (chunk_loop_more_fuel _ _ _ _ _ (S (fuel + length content))) in Hr; [|lia].
    rewrite Hr in Hout. injection Hout as ->. split; assumption.
Qed.

(** X8. With [max_length] not negative, no message that
    [safe_send_message] sends has more than [max_length + 1] characters. *)
Theorem safe_send_message_sizes (fuel : nat) (content : str) (max_length : Z)
    (msgs : list str) :
  (0 <= max_length)%Z ->
  safe_send_message fuel content max_length = Some msgs ->
  Forall (fun m => (len m <= max_length + 1)%Z) msgs.
Proof. intros Hm Hr. apply (safe_send_message_spec fuel content max_length msgs Hm Hr). Qed.

Lemma safe_send_message_sizes_witness :
  Forall (fun m => (len m <= 5 + 1)%Z) [lit "abcdef"; lit "gh"].
Proof.
  apply (safe_send_message_sizes 9 (lit "abcdefgh") 5); [lia|reflexivity].
Defined.

(** X9. With [max_length] not negative, the messages sent carry every
    character of the content that is not white space, in order and nothing
    else: splitting only ever drops white space. *)
Theorem safe_send_message_keeps_ink (fuel : nat) (content : str) (max_length : Z)
    (msgs : list str) :
  (0 <= max_length)%Z ->
  safe_send_message fuel content max_length = Some msgs ->
  ink (concat msgs) = ink content.
Proof. intros Hm Hr. apply (safe_send_message_spec fuel content max_length msgs Hm Hr). Qed.

Lemma safe_send_message_keeps_ink_witness :
  ink (concat [lit "hello world."; lit "this is a test."; lit "of chunking"])
  = ink (lit "hello world. this is a test. of chunking").
Proof.
  apply (safe_send_message_keeps_ink 40
           (lit "hello world. this is a test. of chunking") 16);
    [lia|vm_compute; reflexivity].
Defined.

(** X10. The bound of X8 is reached: a content without white space that
    is longer than [max_length] is cut after index [max_length], so its
    first message has [max_length + 1] characters, one more than asked. *)
Theorem safe_send_message_one_over (fuel : nat) (content : str) (max_length : Z) :
  (0 <= max_length)%Z -> (max_length < len content)%Z -> solid content ->
  (length content < fuel)%nat ->
  exists rest,
    safe_send_message fuel content max_length
    = Some (take (Z.to_nat (max_length + 1)) content :: rest) /\
    len (take (Z.to_nat (max_length + 1)) content) = (max_length + 1)%Z.
Proof.
  intros Hm Hlong Hsolid Hfuel. unfold safe_send_message.
  assert (E : (len content <=? max_length)%Z = false) by (apply Z.leb_gt; exact Hlong).
  rewrite E. destruct fuel as [|fuel]; [lia|]. simpl.
  destruct content as [|c rest] eqn:Ec; [unfold len in Hlong; simpl in Hlong; lia|].
  rewrite <- Ec in *. rewrite E.
  rewrite (split_pos_solid content max_length Hm Hsolid).
  assert (Hk : clamp (len content) (max_length + 1) = Z.to_nat (max_length + 1)).
  { apply Nat2Z.inj. rewrite clamp_nonneg by lia. lia. }
  rewrite slice_to, slice_from, Hk.
  rewrite (strip_solid (take _ content))
    by (unfold solid; apply Forall_take; exact Hsolid).
  destruct (chunk_loop_spec max_length Hm fuel
              (lstrip (drop (Z.to_nat (max_length + 1)) content))
              ([] ++ [take (Z.to_nat (max_length + 1)) content]))
    as (out & Hout & _).
  { pose proof (lstrip_length (drop (Z.to_nat (max_length + 1)) content)) as Hl.
    rewrite length_drop in Hl. unfold len in Hlong. lia. }
  exists out. split; [exact Hout|].
  unfold len in *. rewrite length_take. lia.
Qed.

Lemma safe_send_message_one_over_witness :
  exists rest,
    safe_send_message 9 (lit "abcdefgh") 5
    = Some (take (Z.to_nat (5 + 1)) (lit "abcdefgh") :: rest) /\
    len (take (Z.to_nat (5 + 1)) (lit "abcdefgh")) = (5 + 1)%Z.
Proof.
  apply (safe_send_message_one_over 9 (lit "abcdefgh") 5);
    [lia|vm_compute; reflexivity| |vm_compute; lia].
  unfold solid. repeat constructor.
Defined.

End ChunkFacts.

(** ** utils.py: what a loaded configuration gives the limiter *)

Section ConfigFacts.
Import Utils.

(** X11. A limiter built from a loaded configuration file reads, for a
    bucket the file has an entry for, that entry alone: a key the entry
    leaves out falls back to 5 and not to the built-in entry of the bucket.
    For a bucket the file does not mention it reads the built-in entry
    (['message'] 5 per 5 s, ['command'] 10 per 60 s), and 5 per 5 s for any
    other bucket. *)
Theorem loaded_limits (user_config : Config) (bucket_name : string) :
  let rl := RateLimiter_init (Some (load_config (Parsed user_config))) in
  match default ∅ (rate_limits user_config) !! bucket_name with
  | Some entry =>
      max_requests_of rl bucket_name = default 5%Z (requests entry) /\
      window_of rl bucket_name = default 5 (window entry)
  | None =>
      limits_of rl bucket_name
      = default {| requests := Some 5%Z; window := Some 5 |}
                (default_rate_limits !! bucket_name)
  end.
Proof.
  intros rl. unfold max_requests_of, window_of, limits_of, rl. simpl.
  destruct (default ∅ (rate_limits user_config) !! bucket_name) as [entry|] eqn:E.
  - rewrite (lookup_union_Some_l _ _ _ _ E). split; reflexivity.
  - rewrite lookup_union_r by exact E. reflexivity.
Qed.

(** An entry for ['command'] that only sets [requests] loses the window of
    60 seconds of the built-in entry. *)
Example partial_entry_loses_window :
  let user_config :=
    {| token := None; prefix := None;
       rate_limits :=
         Some (<["command"%string := {| requests := Some 20%Z; window := None |}]> ∅) |} in
  let rl := RateLimiter_init (Some (load_config (Parsed user_config))) in
  max_requests_of rl "command" = 20%Z /\ window_of rl "command" = 5 /\
  max_requests_of rl "message" = 5%Z /\
  window_of (RateLimiter_init (Some (load_config Missing))) "command" = 60.
Proof. repeat split; reflexivity. Qed.

End ConfigFacts.

(** ** The gateway: more on the handler *)

Section GatewayFacts.
Import Gateway.

Lemma send_payload_closed (p : payload) (w : World) :
  ws_live (gw w) = false -> _send_payload p w = w.
Proof. intros H. unfold _send_payload. rewrite H. reflexivity. Qed.

Lemma sent_fail (w : World) : sent (fail w) = sent w.
Proof. unfold fail, connect_except. destruct (_ <? _)%Z; reflexivity. Qed.

Lemma sent_leave_ws (w : World) : sent (leave_ws w) = sent w.
Proof. unfold leave_ws. destruct (ws (gw w)); reflexivity. Qed.

Lemma sent_close (w : World) : sent (close w) = sent w.
Proof. unfold close. destruct (ws_live (gw w)); reflexivity. Qed.

(** X12. Nothing is ever written to a socket that is closed or was never
    opened: whatever happens next, the payloads written stay the same. *)
Theorem closed_socket_never_written (w w' : World) (e : event) :
  ws_live (gw w) = false -> step w e = Some w' -> sent w' = sent w.
Proof.
  intros Hclosed Hstep. destruct e as [dt|ok|msg| |i| ]; simpl in Hstep.
  - destruct (Qle_bool 0 dt); [|discriminate]. injection Hstep as <-. reflexivity.
  - destruct (reader w); try discriminate. injection Hstep as <-.
    unfold connect. destruct ok; [reflexivity|]. rewrite sent_fail. reflexivity.
  - destruct (reader w); try discriminate. injection Hstep as <-.
    unfold read_loop. rewrite Hclosed. simpl. rewrite <- (sent_leave_ws w).
    reflexivity.
  - destruct (reader w) as [ | |wake|wake]; try discriminate;
      destruct (Qle_bool wake (clock w)); try discriminate;
      injection Hstep as <-; [|reflexivity].
    unfold _identify. rewrite send_payload_closed by exact Hclosed. reflexivity.
  - assert (Hloop : sent (_heartbeat_loop i w) = sent w)
      by (unfold _heartbeat_loop; rewrite Hclosed; reflexivity).
    destruct (tasks w !! i) as [[ |wake| ]|]; try discriminate.
    + injection Hstep as <-. exact Hloop.
    + destruct (Qle_bool wake (clock w)); [|discriminate].
      injection Hstep as <-. exact Hloop.
  - injection Hstep as <-. apply sent_close.
Qed.

Lemma closed_socket_never_written_witness :
  let w := with_reader (InvalidWait 5) (close (in_session "abc" 4)) in
  sent (_identify (with_reader Reading (with_clock 6 w))) = sent (with_clock 6 w).
Proof.
  intros w.
  apply (closed_socket_never_written (with_clock 6 w) _ ReaderResume);
    reflexivity.
Defined.

(** X13. A handler that starts fresh never holds a session id and never
    writes a resume, whatever frames arrive and however often it
    reconnects: nothing in the handler ever stores a session id. *)
Theorem fresh_handler_never_resumes (tok : string) (es : list event) (w : World) :
  run (boot tok) es = Some w ->
  session_id (gw w) = None /\
  Forall (fun p => payload_op p <> 6%Z) (sent w).
Proof.
  intros Hrun.
  destruct (unresumed_run es (boot tok) w Hrun) as (Hs & extra & Hx & Hf).
  split; [apply Hs; reflexivity|].
  change (sent (boot tok)) with (@nil payload) in Hx. simpl in Hx.
  rewrite Hx. apply Hf. reflexivity.
Qed.

Lemma fresh_handler_never_resumes_witness :
  let es := [Connect true; Recv (TEXT (Some (hello 41250)));
             Recv (TEXT (Some (dispatch 5 "READY"))); Recv CLOSE;
             Connect true; Recv (TEXT (Some (hello 41250)))] in
  exists w,
    run (boot "tok") es = Some w /\
    session_id (gw w) = None /\
    Forall (fun p => payload_op p <> 6%Z) (sent w).
Proof.
  intros es. eexists. split; [vm_compute; reflexivity|].
  apply (fresh_handler_never_resumes "tok" es). vm_compute. reflexivity.
Defined.

(** Once the socket is closed the read loop ends at its next turn and
    [connect] returns: no failure is counted and the session is kept. *)
Lemma read_loop_ends (w : World) (msg : ws_msg) :
  reader w = Reading -> ws_live (gw w) = false ->
  exists w2,
    step w (Recv msg) = Some w2 /\
    reader w2 = Idle /\
    reconnect_attempts (gw w2) = reconnect_attempts (gw w) /\
    session_id (gw w2) = session_id (gw w) /\
    sequence (gw w2) = sequence (gw w) /\
    sent w2 = sent w /\ log w2 = log w.
Proof.
  intros Hr Hclosed. simpl. rewrite Hr. unfold read_loop. rewrite Hclosed. simpl.
  eexists. split; [reflexivity|].
  unfold leave_ws. destruct (ws (gw w)); repeat split; reflexivity.
Qed.

(** X14. A RECONNECT frame (opcode 7) closes the socket and keeps
    [session_id]; the stored sequence only takes the [s] of the frame.
    Nothing is written and no failure is counted, and at its next turn the
    read loop ends and [connect] returns without raising. *)
Theorem reconnect_request_closes (w : World) (data : frame) :
  reader w = Reading -> ws_live (gw w) = true -> op data = Some 7%Z ->
  exists w1,
    step w (Recv (TEXT (Some data))) = Some w1 /\
    ws_live (gw w1) = false /\
    session_id (gw w1) = session_id (gw w) /\
    sequence (gw w1)
    = match s data with Some n => Some n | None => sequence (gw w) end /\
    reconnect_attempts (gw w1) = reconnect_attempts (gw w) /\
    sent w1 = sent w /\
    forall msg, exists w2,
      step w1 (Recv msg) = Some w2 /\
      reader w2 = Idle /\
      reconnect_attempts (gw w2) = reconnect_attempts (gw w) /\
      session_id (gw w2) = session_id (gw w) /\
      sequence (gw w2) = sequence (gw w1) /\
      sent w2 = sent w.
Proof.
  intros Hr Hlive Hop.
  assert (H1 : exists w1,
    step w (Recv (TEXT (Some data))) = Some w1 /\
    reader w1 = Reading /\ ws_live (gw w1) = false /\
    session_id (gw w1) = session_id (gw w) /\
    sequence (gw w1)
    = match s data with Some n => Some n | None => sequence (gw w) end /\
    reconnect_attempts (gw w1) = reconnect_attempts (gw w) /\
    sent w1 = sent w).
  { simpl. rewrite Hr. unfold read_loop. rewrite Hlive. simpl.
    unfold _handle_message. rewrite Hop. simpl.
    eexists. split; [reflexivity|]. unfold close.
    destruct (s data); simpl;
      change (ws_live (set_sequence _ (gw w))) with (ws_live (gw w));
      rewrite ?Hlive; simpl; repeat split; exact Hr. }
  destruct H1 as (w1 & Hstep & Hr1 & Hc1 & Hsid & Hseq & Hatt & Hsent).
  exists w1. repeat (split; [assumption|]).
  intros msg.
  destruct (read_loop_ends w1 msg Hr1 Hc1) as (w2 & H2 & Hi & Ha & Hs & Hq & Hw & _).
  exists w2. repeat split; congruence.
Qed.

Lemma reconnect_request_closes_witness :
  let w := in_session "abc" 4 in
  let data := {| op := Some 7%Z; d := JNull; s := None; t := None |} in
  exists w1,
    step w (Recv (TEXT (Some data))) = Some w1 /\
    ws_live (gw w1) = false /\
    session_id (gw w1) = session_id (gw w) /\
    sequence (gw w1)
    = match s data with Some n => Some n | None => sequence (gw w) end /\
    reconnect_attempts (gw w1) = reconnect_attempts (gw w) /\
    sent w1 = sent w /\
    forall msg, exists w2,
      step w1 (Recv msg) = Some w2 /\
      reader w2 = Idle /\
      reconnect_attempts (gw w2) = reconnect_attempts (gw w) /\
      session_id (gw w2) = session_id (gw w) /\
      sequence (gw w2) = sequence (gw w1) /\
      sent w2 = sent w.
Proof.
  intros w data. apply (reconnect_request_closes w data); reflexivity.
Defined.

(** X15. Stopping a handler that is reading closes the socket without
    touching the session or the failure count; at its next turn the read
    loop ends, [connect] returns without raising and nothing more is
    written. *)
Theorem stop_ends_quietly (w : World) (msg : ws_msg) :
  reader w = Reading ->
  exists w1 w2,
    step w Stop = Some w1 /\ ws_live (gw w1) = false /\
    step w1 (Recv msg) = Some w2 /\
    reader w2 = Idle /\
    reconnect_attempts (gw w2) = reconnect_attempts (gw w) /\
    session_id (gw w2) = session_id (gw w) /\
    sequence (gw w2) = sequence (gw w) /\
    sent w2 = sent w.
Proof.
  intros Hr.
  assert (H1 : reader (close w) = Reading /\ ws_live (gw (close w)) = false /\
               reconnect_attempts (gw (close w)) = reconnect_attempts (gw w) /\
               session_id (gw (close w)) = session_id (gw w) /\
               sequence (gw (close w)) = sequence (gw w)).
  { unfold close. destruct (ws_live (gw w)) eqn:El; simpl; repeat split; assumption. }
  destruct H1 as (Hr1 & Hc1 & Hatt & Hsid & Hseq).
  destruct (read_loop_ends (close w) msg Hr1 Hc1) as (w2 & H2 & Hi & Ha & Hs & Hq & Hw & _).
  exists (close w), w2. split; [reflexivity|]. split; [exact Hc1|].
  split; [exact H2|]. rewrite sent_close in Hw. repeat split; congruence.
Qed.

Lemma stop_ends_quietly_witness :
  let w := in_session "abc" 4 in
  exists w1 w2,
    step w Stop = Some w1 /\ ws_live (gw w1) = false /\
    step w1 (Recv CLOSE) = Some w2 /\
    reader w2 = Idle /\
    reconnect_attempts (gw w2) = reconnect_attempts (gw w) /\
    session_id (gw w2) = session_id (gw w) /\
    sequence (gw w2) = sequence (gw w) /\
    sent w2 = sent w.
Proof. intros w. apply (stop_ends_quietly w CLOSE). reflexivity. Defined.

(** X16. A DISPATCH frame (opcode 0) hands its event type and payload to
    the bot exactly once, stores its [s] if it has one, writes nothing and
    leaves the reader in the loop. *)
Theorem dispatch_forwards_once (w : World) (data : frame) :
  reader w = Reading -> ws_live (gw w) = true -> op data = Some 0%Z ->
  exists w1,
    step w (Recv (TEXT (Some data))) = Some w1 /\
    dispatched w1 = dispatched w ++ [(t data, d data)] /\
    sequence (gw w1)
    = match s data with Some n => Some n | None => sequence (gw w) end /\
    sent w1 = sent w /\ reader w1 = Reading /\ ws_live (gw w1) = true.
Proof.
  intros Hr Hlive Hop. simpl. rewrite Hr. unfold read_loop. rewrite Hlive. simpl.
  unfold _handle_message. rewrite Hop. simpl.
  eexists. split; [reflexivity|].
  destruct (s data); simpl; repeat split; assumption.
Qed.

Lemma dispatch_forwards_once_witness :
  let w := in_session "abc" 4 in
  let data := dispatch 5 "MESSAGE_CREATE" in
  exists w1,
    step w (Recv (TEXT (Some data))) = Some w1 /\
    dispatched w1 = dispatched w ++ [(t data, d data)] /\
    sequence (gw w1)
    = match s data with Some n => Some n | None => sequence (gw w) end /\
    sent w1 = sent w /\ reader w1 = Reading /\ ws_live (gw w1) = true.
Proof.
  intros w data. apply (dispatch_forwards_once w data); reflexivity.
Defined.

End GatewayFacts.

(** ** The gateway: more on the heartbeat loop *)

Section HeartbeatFacts.
Import Gateway.

Lemma ack_send_payload (p : payload) (w : World) :
  last_heartbeat_ack (gw (_send_payload p w)) = last_heartbeat_ack (gw w).
Proof. unfold _send_payload. destruct (ws_live (gw w)); reflexivity. Qed.

Lemma ack_close (w : World) :
  last_heartbeat_ack (gw (close w)) = last_heartbeat_ack (gw w).
Proof. unfold close. destruct (ws_live (gw w)); reflexivity. Qed.

Lemma ack_fail_leave (w : World) :
  last_heartbeat_ack (gw (fail (leave_ws w))) = last_heartbeat_ack (gw w).
Proof.
  unfold fail, connect_except, leave_ws.
  destruct (ws (gw w)); destruct (_ <? _)%Z; reflexivity.
Qed.

Lemma ack_fail (w : World) :
  last_heartbeat_ack (gw (fail w)) = last_heartbeat_ack (gw w).
Proof. unfold fail, connect_except. destruct (_ <? _)%Z; reflexivity. Qed.

Lemma op_is_eq (o : option Z) (n : Z) : op_is o n = true -> o = Some n.
Proof.
  destruct o as [m|]; simpl; [|discriminate]. intros H.
  apply Z.eqb_eq in H. congruence.
Qed.

(** Only the opcode 11 branch raises [last_heartbeat_ack]. *)
Lemma ack_handle_message (data : frame) (w : World) :
  op_is (op data) 11 = false ->
  last_heartbeat_ack (gw (fst (_handle_message data w))) = true ->
  last_heartbeat_ack (gw w) = true.
Proof.
  intros H11. unfold _handle_message. rewrite H11.
  assert (H0 : last_heartbeat_ack (gw match s data with
                 | Some n => with_gw (set_sequence (Some n) (gw w)) w
                 | None => w
                 end) = last_heartbeat_ack (gw w)) by (destruct (s data); reflexivity).
  revert H0. generalize (match s data with
                         | Some n => with_gw (set_sequence (Some n) (gw w)) w
                         | None => w
                         end). intros w0 H0. rewrite <- H0.
  destruct (op_is (op data) 0); [cbn [fst]; auto|].
  destruct (op_is (op data) 1).
  { cbn [fst]. unfold _send_heartbeat. cbv zeta. intros H.
    change (last_heartbeat_ack (gw (_send_payload (Heartbeat (sequence (gw w0)))
              (with_gw (set_last_heartbeat_ack false (gw w0)) w0))) = true) in H.
    rewrite ack_send_payload in H. discriminate. }
  destruct (op_is (op data) 7); [cbn [fst]; rewrite ack_close; auto|].
  destruct (op_is (op data) 9); [cbn [fst]; auto|].
  destruct (op_is (op data) 10); [|cbn [fst]; auto].
  destruct (hello_interval (d data)); [|cbn [fst]; auto].
  destruct (truthy _); simpl; unfold _resume, _identify; simpl;
    rewrite ack_send_payload; cbn [fst]; auto.
Qed.

(** X17. A turn of the heartbeat loop writes a heartbeat only when the
    last one was acknowledged, and leaves it unacknowledged; and from then
    on only a HEARTBEAT ACK frame (opcode 11) marks it acknowledged again.
    So one loop never writes two heartbeats without an acknowledgment in
    between. *)
Theorem heartbeat_needs_ack (w w' : World) :
  (forall i, step w (HeartbeatRun i) = Some w' ->
     sent w' = sent w \/
     (last_heartbeat_ack (gw w) = true /\
      sent w' = sent w ++ [Heartbeat (sequence (gw w))] /\
      last_heartbeat_ack (gw w') = false)) /\
  (forall e, step w e = Some w' ->
     last_heartbeat_ack (gw w) = false -> last_heartbeat_ack (gw w') = true ->
     exists data, e = Recv (TEXT (Some data)) /\ op data = Some 11%Z).
Proof.
  split.
  - intros i Hstep.
    assert (Hloop :
      sent (_heartbeat_loop i w) = sent w \/
      (last_heartbeat_ack (gw w) = true /\
       sent (_heartbeat_loop i w) = sent w ++ [Heartbeat (sequence (gw w))] /\
       last_heartbeat_ack (gw (_heartbeat_loop i w)) = false)).
    { unfold _heartbeat_loop, _send_heartbeat, _send_payload.
      destruct (ws_live (gw w)) eqn:El; simpl; [|auto].
      destruct (last_heartbeat_ack (gw w)); simpl; [|auto].
      change (ws_live (set_last_heartbeat_ack false (gw w))) with (ws_live (gw w)).
      rewrite El. simpl. right. split; [reflexivity|].
      destruct (heartbeat_interval (gw w)); simpl;
        (split; [unfold sent; simpl; apply map_app|reflexivity]). }
    simpl in Hstep. destruct (tasks w !! i) as [[ |wake| ]|]; try discriminate.
    + injection Hstep as <-. exact Hloop.
    + destruct (Qle_bool wake (clock w)); [|discriminate].
      injection Hstep as <-. exact Hloop.
  - intros e Hstep Hno Hyes.
    destruct e as [dt|ok|msg| |i| ]; simpl in Hstep.
    + destruct (Qle_bool 0 dt); [|discriminate]. injection Hstep as <-.
      simpl in Hyes. congruence.
    + destruct (reader w); try discriminate. injection Hstep as <-.
      unfold connect in Hyes. destruct ok; [simpl in Hyes; congruence|].
      rewrite ack_fail in Hyes. simpl in Hyes. congruence.
    + destruct (reader w); try discriminate. injection Hstep as <-.
      unfold read_loop in Hyes.
      destruct (negb (ws_live (gw w))).
      { unfold leave_ws in Hyes. destruct (ws (gw w)); simpl in Hyes; congruence. }
      destruct msg as [[data|]| | | ].
      * exists data. split; [reflexivity|].
        destruct (op_is (op data) 11) eqn:E11; [apply op_is_eq, E11|].
        exfalso.
        pose proof (ack_handle_message data w E11) as Hh.
        destruct (_handle_message data w) as [w1 [ | | ]]; simpl in Hh, Hyes.
        -- rewrite Hh in Hno by exact Hyes. discriminate.
        -- rewrite Hh in Hno by exact Hyes. discriminate.
        -- rewrite ack_fail_leave in Hyes. rewrite Hh in Hno by exact Hyes.
           discriminate.
      * rewrite ack_fail_leave in Hyes. congruence.
      * congruence.
      * unfold leave_ws in Hyes. simpl in Hyes.
        destruct (ws (gw w)); simpl in Hyes; congruence.
      * unfold leave_ws in Hyes. simpl in Hyes.
        destruct (ws (gw w)); simpl in Hyes; congruence.
    + destruct (reader w) as [ | |wake|wake]; try discriminate;
        destruct (Qle_bool wake (clock w)); try discriminate;
        injection Hstep as <-.
      * unfold _identify in Hyes. simpl in Hyes. rewrite ack_send_payload in Hyes.
        simpl in Hyes. congruence.
      * simpl in Hyes. congruence.
    + assert (Hloop : last_heartbeat_ack (gw (_heartbeat_loop i w)) = false).
      { unfold _heartbeat_loop. destruct (ws_live (gw w)); [|exact Hno].
        rewrite Hno. exact Hno. }
      destruct (tasks w !! i) as [[ |wake| ]|]; try discriminate.
      * injection Hstep as <-. congruence.
      * destruct (Qle_bool wake (clock w)); [|discriminate].
        injection Hstep as <-. congruence.
    + injection Hstep as <-. rewrite ack_close in Hyes. congruence.
Qed.

Lemma tasks_send_payload (p : payload) (w : World) :
  tasks (_send_payload p w) = tasks w.
Proof. unfold _send_payload. destruct (ws_live (gw w)); reflexivity. Qed.

Lemma tasks_close (w : World) : tasks (close w) = tasks w.
Proof. unfold close. destruct (ws_live (gw w)); reflexivity. Qed.

Lemma tasks_fail_leave (w : World) : tasks (fail (leave_ws w)) = tasks w.
Proof.
  unfold fail, connect_except, leave_ws.
  destruct (ws (gw w)); destruct (_ <? _)%Z; reflexivity.
Qed.

Lemma tasks_fail (w : World) : tasks (fail w) = tasks w.
Proof. unfold fail, connect_except. destruct (_ <? _)%Z; reflexivity. Qed.

(** Handling a frame never ends or removes a heartbeat task; HELLO adds
    one. *)
Lemma tasks_handle_message (data : frame) (w : World) :
  tasks (fst (_handle_message data w)) = tasks w \/
  tasks (fst (_handle_message data w)) = tasks w ++ [HbNew].
Proof.
  unfold _handle_message.
  assert (H0 : tasks match s data with
                 | Some n => with_gw (set_sequence (Some n) (gw w)) w
                 | None => w
                 end = tasks w) by (destruct (s data); reflexivity).
  revert H0. generalize (match s data with
                         | Some n => with_gw (set_sequence (Some n) (gw w)) w
                         | None => w
                         end). intros w0 H0. rewrite <- H0.
  destruct (op_is (op data) 0); [cbn [fst]; auto|].
  destruct (op_is (op data) 1).
  { cbn [fst]. unfold _send_heartbeat. cbv zeta. left.
    change (tasks (_send_payload (Heartbeat (sequence (gw w0)))
              (with_gw (set_last_heartbeat_ack false (gw w0)) w0)) = tasks w0).
    rewrite tasks_send_payload. reflexivity. }
  destruct (op_is (op data) 7); [cbn [fst]; left; rewrite tasks_close; reflexivity|].
  destruct (op_is (op data) 9); [cbn [fst]; auto|].
  destruct (op_is (op data) 10).
  - destruct (hello_interval (d data)); [|cbn [fst]; auto].
    destruct (truthy _); simpl; unfold _resume, _identify; simpl;
      rewrite tasks_send_payload; cbn [fst]; auto.
  - destruct (op_is (op data) 11); cbn [fst]; auto.
Qed.

Lemma tasks_heartbeat_loop (j : nat) (w : World) :
  exists st, tasks (_heartbeat_loop j w) = <[j := st]> (tasks w).
Proof.
  unfold _heartbeat_loop, _send_heartbeat.
  destruct (ws_live (gw w)); [|eexists; reflexivity].
  destruct (negb _); [eexists; reflexivity|].
  destruct (heartbeat_interval _); eexists; simpl;
    rewrite tasks_send_payload; reflexivity.
Qed.

Lemma step_keeps_task (w w' : World) (e : event) (i : nat) (st : hb_state) :
  step w e = Some w' -> e <> HeartbeatRun i ->
  tasks w !! i = Some st -> tasks w' !! i = Some st.
Proof.
  intros Hstep Hne Hi.
  destruct e as [dt|ok|msg| |j| ]; simpl in Hstep.
  - destruct (Qle_bool 0 dt); [|discriminate]. injection Hstep as <-. exact Hi.
  - destruct (reader w); try discriminate. injection Hstep as <-.
    unfold connect. destruct ok; [exact Hi|]. rewrite tasks_fail. exact Hi.
  - destruct (reader w); try discriminate. injection Hstep as <-.
    unfold read_loop. destruct (negb (ws_live (gw w))).
    { unfold leave_ws. destruct (ws (gw w)); exact Hi. }
    destruct msg as [[data|]| | | ].
    + pose proof (tasks_handle_message data w) as Hh.
      destruct (_handle_message data w) as [w1 f]. simpl in Hh.
      assert (H1 : tasks w1 !! i = Some st).
      { destruct Hh as [-> | ->]; [exact Hi|]. apply lookup_app_l_Some, Hi. }
      destruct f; [exact H1|exact H1|]. rewrite tasks_fail_leave. exact H1.
    + rewrite tasks_fail_leave. exact Hi.
    + exact Hi.
    + unfold leave_ws. simpl. destruct (ws (gw w)); exact Hi.
    + unfold leave_ws. simpl. destruct (ws (gw w)); exact Hi.
  - destruct (reader w) as [ | |wake|wake]; try discriminate;
      destruct (Qle_bool wake (clock w)); try discriminate;
      injection Hstep as <-; [|exact Hi].
    unfold _identify. simpl. rewrite tasks_send_payload. exact Hi.
  - assert (Hij : j <> i) by congruence.
    destruct (tasks_heartbeat_loop j w) as [x Hx].
    assert (Hloop : tasks (_heartbeat_loop j w) !! i = Some st)
      by (rewrite Hx, list_lookup_insert_ne by exact Hij; exact Hi).
    destruct (tasks w !! j) as [[ |wake| ]|]; try discriminate.
    + injection Hstep as <-. exact Hloop.
    + destruct (Qle_bool wake (clock w)); [|discriminate].
      injection Hstep as <-. exact Hloop.
  - injection Hstep as <-. rewrite tasks_close. exact Hi.
Qed.

(** X18. Nothing but its own turns changes a heartbeat task: frames, a
    closed or lost connection, a stop and a new connection all leave it as
    it is.  A task that sleeps through a reconnect is still there
    afterwards, next to the task the new HELLO starts. *)
Theorem heartbeat_task_outlives (es : list event) (i : nat) (st : hb_state) :
  forall w w',
    run w es = Some w' ->
    Forall (fun e => e <> HeartbeatRun i) es ->
    tasks w !! i = Some st -> tasks w' !! i = Some st.
Proof.
  induction es as [|e es IH]; intros w w' Hrun Hall Hi; simpl in Hrun.
  - injection Hrun as <-. exact Hi.
  - destruct (step w e) as [w1|] eqn:Hstep; [|discriminate].
    inversion Hall as [|? ? He Hes]; subst.
    apply (IH w1 w' Hrun Hes).
    apply (step_keeps_task w w1 e i st Hstep He Hi).
Qed.

Lemma heartbeat_task_outlives_witness :
  let w := with_tasks [HbSleeping 40] (in_session "abc" 4) in
  let es := [Recv CLOSE; Connect true; Recv (TEXT (Some (hello 41250)))] in
  exists w',
    run w es = Some w' /\
    tasks w' !! 0%nat = Some (HbSleeping 40) /\
    tasks w' = [HbSleeping 40; HbNew].
Proof.
  intros w es. eexists. split; [vm_compute; reflexivity|]. split; [|reflexivity].
  apply (heartbeat_task_outlives es 0 (HbSleeping 40) w).
  - vm_compute. reflexivity.
  - repeat constructor; discriminate.
  - reflexivity.
Defined.

End HeartbeatFacts.

(** ** commands.py: registering and running commands *)

Section CommandFacts.
Import Py Commands.

(** [str.lower], whatever it does to a word. *)
Variable lower : str -> str.

Lemma lstrip_head (s r : str) (c : N) : lstrip s = c :: r -> isspace c = false.
Proof.
  induction s as [|a s IH]; simpl; [discriminate|].
  destruct (isspace a) eqn:E; [exact IH|]. intros [= <- _]. exact E.
Qed.

(** What is left of a text after [strip], if anything, holds a character
    that is not white space. *)
Lemma strip_has_ink (s : str) :
  strip s <> [] -> exists c, In c (strip s) /\ isspace c = false.
Proof.
  unfold strip, rstrip. intros Hne.
  destruct (lstrip (rev (lstrip s))) as [|c r] eqn:E; [contradiction|].
  exists c. split; [|exact (lstrip_head _ _ _ E)].
  apply in_rev. rewrite rev_involutive. left. reflexivity.
Qed.

Lemma words_nil (s cur : str) :
  words cur s = [] -> cur = [] /\ forall c, In c s -> isspace c = true.
Proof.
  revert cur. induction s as [|a s IH]; intros cur; simpl.
  - destruct cur; [intros _; split; [reflexivity|intros c []]|discriminate].
  - destruct (isspace a) eqn:E.
    + destruct cur; [|discriminate]. intros H. destruct (IH [] H) as [_ Hall].
      split; [reflexivity|]. intros c [<-|Hc]; [exact E|apply Hall, Hc].
    + intros H. destruct (IH (a :: cur) H) as [Hcur _]. discriminate.
Qed.

(** X19. [parts[0]] never raises: after the test [if not command_text]
    the text has a character that is not white space, so [split] returns at
    least one word. *)
Theorem handle_command_no_index_error (content : str) (now : Q)
    (self : CommandSystem) :
  snd (handle_command lower content now self) <> IndexError.
Proof.
  unfold handle_command.
  destruct (negb (startswith (prefix self) content)); [discriminate|].
  set (text := strip (slice (Some (len (prefix self))) None content)).
  destruct text as [|c0 r0] eqn:Et; [discriminate|].
  destruct (split (c0 :: r0)) as [|word args] eqn:Es.
  - exfalso. destruct (strip_has_ink (slice (Some (len (prefix self))) None content))
      as (c & Hc & Hsp); [fold text; rewrite Et; discriminate|].
    fold text in Hc. rewrite Et in Hc.
    destruct (words_nil _ _ Es) as [_ Hall]. rewrite (Hall c Hc) in Hsp. discriminate.
  - destruct (commands self !! lower word); discriminate.
Qed.

(** X20. A command that is run has its use counted once on its object:
    the count read through any key of that object, name or alias, goes up
    by one and every other count stays.  When no command is run the system
    is unchanged. *)
Theorem handle_command_counts (content : str) (now : Q) (self : CommandSystem) :
  let self' := fst (handle_command lower content now self) in
  commands self' = commands self /\
  match snd (handle_command lower content now self) with
  | Ran id _ =>
      forall key,
        usage_of self' key
        = if bool_decide (commands self !! key = Some id)
          then (fun n => n + 1)%Z <$> usage_of self key
          else usage_of self key
  | _ => self' = self
  end.
Proof.
  unfold handle_command.
  destruct (negb (startswith (prefix self) content)); [split; reflexivity|].
  destruct (strip _) as [|c0 r0]; [split; reflexivity|].
  destruct (split (c0 :: r0)) as [|word args]; [split; reflexivity|].
  destruct (commands self !! lower word) as [id|] eqn:Ek; [|split; reflexivity].
  simpl. split; [reflexivity|]. intros key. unfold usage_of. simpl.
  destruct (commands self !! key) as [id'|] eqn:Ekey.
  - destruct (decide (id' = id)) as [->|Hne].
    + rewrite bool_decide_eq_true_2 by reflexivity.
      rewrite list_lookup_alter_eq. destruct (objects self !! id); reflexivity.
    + rewrite bool_decide_eq_false_2 by congruence.
      rewrite list_lookup_alter_ne by congruence. reflexivity.
  - rewrite bool_decide_eq_false_2 by congruence. reflexivity.
Qed.

Lemma bool_decide_cons (key a : str) (l : list str) :
  bool_decide (key ∈ a :: l) = bool_decide (key = a) || bool_decide (key ∈ l).
Proof.
  rewrite <- bool_decide_or. apply bool_decide_ext, elem_of_cons.
Qed.

Lemma foldl_insert_lookup (l : list str) (id : nat) (m : gmap str nat) (key : str) :
  foldl (fun m alias => <[alias := id]> m) m l !! key
  = if bool_decide (key ∈ l) then Some id else m !! key.
Proof.
  revert m. induction l as [|a l IH]; intros m; cbn [foldl].
  - rewrite bool_decide_eq_false_2 by apply not_elem_of_nil. reflexivity.
  - rewrite IH, bool_decide_cons. destruct (decide (key = a)) as [->|Hne].
    + rewrite lookup_insert_eq, (bool_decide_eq_true_2 (a = a)) by reflexivity.
      destruct (bool_decide (a ∈ l)); reflexivity.
    + rewrite lookup_insert_ne by congruence.
      rewrite (bool_decide_eq_false_2 (key = a)) by exact Hne. reflexivity.
Qed.

(** X21. After [register_command] the name and every alias lead to the
    new command, not yet used; every other key leads where it led before,
    and the commands registered earlier are untouched. *)
Theorem register_command_lookup (name : str) (handler : callable)
    (description : str) (aliases : option (list str)) (self : CommandSystem) :
  let self' := register_command name handler description aliases self in
  let id := length (objects self) in
  (forall key,
     commands self' !! key
     = if bool_decide (key ∈ name :: default [] aliases) then Some id
       else commands self !! key) /\
  objects self' !! id
  = Some {| Commands.name := name; Commands.handler := handler;
            Commands.description := description;
            Commands.aliases := default [] aliases;
            usage_count := 0; last_used := None |} /\
  (forall i, (i < id)%nat -> objects self' !! i = objects self !! i).
Proof.
  intros self' id. split; [|split].
  - intros key. unfold self', register_command. cbn [commands].
    rewrite foldl_insert_lookup, bool_decide_cons. fold id.
    destruct (decide (key = name)) as [->|Hne].
    + rewrite lookup_insert_eq, (bool_decide_eq_true_2 (name = name)) by reflexivity.
      destruct (bool_decide _); reflexivity.
    + rewrite lookup_insert_ne by congruence.
      rewrite (bool_decide_eq_false_2 (key = name)) by exact Hne. reflexivity.
  - unfold self', register_command. simpl. apply list_lookup_middle. reflexivity.
  - intros i Hi. unfold self', register_command. simpl.
    apply lookup_app_l. exact Hi.
Qed.

End CommandFacts.

(** ** bot.py: counting events *)

Section EventFacts.
Import Py Commands Events.

Variable lower : str -> str.

Lemma handle_event_stats (event_type : string) (data : Gateway.json) (now : Q)
    (self : DiscordUser) :
  let st := stats self in
  let st' := stats (handle_event lower event_type data now self) in
  events_received st' = (events_received st + 1)%Z /\
  (messages_processed st <= messages_processed st' <= messages_processed st + 1)%Z /\
  (commands_executed st <= commands_executed st'
   <= commands_executed st + (messages_processed st' - messages_processed st))%Z.
Proof.
  unfold handle_event.
  destruct (String.eqb event_type "MESSAGE_CREATE").
  - unfold _handle_message. simpl.
    destruct data as [ | | | | | |items]; simpl; try lia.
    destruct (default _ (Gateway.assoc "author" items)); simpl; try lia.
    destruct (default _ (Gateway.assoc "content" items)); simpl; try lia.
    destruct (handle_command _ _ _ _) as [cs [ | | | ]]; simpl; lia.
  - repeat (match goal with |- context [if String.eqb ?a ?b then _ else _] =>
              destruct (String.eqb a b) end; simpl; try lia).
Qed.

(** X22. However many events of whatever kind the bot handles, it has
    counted every one of them, and the counters stay in order: commands run
    are at most the messages processed, and these at most the events
    received. *)
Theorem event_counters_ordered (events : list (string * Gateway.json * Q))
    (prefix : str) :
  let st := stats (handle_events lower events (DiscordUser_init prefix)) in
  events_received st = Z.of_nat (length events) /\
  (0 <= commands_executed st <= messages_processed st)%Z /\
  (messages_processed st <= events_received st)%Z.
Proof.
  assert (G : forall evs self,
    (0 <= commands_executed (stats self) <= messages_processed (stats self))%Z ->
    (messages_processed (stats self) <= events_received (stats self))%Z ->
    let st := stats (handle_events lower evs self) in
    events_received st = (events_received (stats self) + Z.of_nat (length evs))%Z /\
    (0 <= commands_executed st <= messages_processed st)%Z /\
    (messages_processed st <= events_received st)%Z).
  { induction evs as [|[[event_type data] now] evs IH]; intros self H1 H2.
    - simpl. split; [lia|]. split; assumption.
    - pose proof (handle_event_stats event_type data now self) as Hs.
      cbv zeta in Hs. destruct Hs as (He & Hm & Hc).
      specialize (IH (handle_event lower event_type data now self)
                     ltac:(lia) ltac:(lia)).
      cbv zeta in IH |- *. change (handle_events lower ((event_type, data, now) :: evs) self)
        with (handle_events lower evs (handle_event lower event_type data now self)).
      destruct IH as (IH1 & IH2 & IH3). split; [|split; assumption].
      rewrite IH1, He. simpl length. lia. }
  intros st. apply (G events (DiscordUser_init prefix)); simpl; lia.
Qed.

End EventFacts.

Section CommandExamples.
Import Py Commands.

(** With prefix [!], the message [!p  a b] runs the command registered as
    [ping] with alias [p], with the arguments [a] and [b], and the use is
    counted under both keys. *)
Example alias_shares_counter :
  let self := register_command (lit "ping") _ping_command (lit "") (Some [lit "p"])
                {| prefix := lit "!"; objects := []; commands := ∅ |} in
  let r := handle_command (fun word => word) (lit "!p  a b") 7 self in
  snd r = Ran 0 [lit "a"; lit "b"] /\
  usage_of (fst r) (lit "ping") = Some 1%Z /\
  usage_of (fst r) (lit "p") = Some 1%Z /\
  usage_of self (lit "ping") = Some 0%Z.
Proof. vm_compute. repeat split; reflexivity. Qed.

End CommandExamples.

(** ** The rate limiter: how long a call waits, and when it raises *)

Section RateLimiterMore.
Import Utils.

Lemma run_calls_config (cs : list call) : forall self clk,
  config (fst (fst (run_calls self clk cs))) = config self.
Proof.
  induction cs as [|c cs IH]; intros self clk; simpl; [reflexivity|].
  pose proof (wait_if_needed_config self (bucket c) (at_time c) (lateness c)) as Hc.
  destruct (wait_if_needed self (bucket c) (at_time c) (lateness c)) as [self' o].
  specialize (IH self' (return_time c o)).
  destruct (run_calls self' (return_time c o) cs) as [[final clk'] adm].
  simpl in *. congruence.
Qed.

(** X23. With a cap of at least 1, a call made after any number of
    earlier calls (one after the other, the clock not running backwards) is
    always let through, never raises, and is held back by at most one
    window: it is stamped either as soon as it arrives or later, but no
    later than [window_seconds] after its arrival, lateness of the
    scheduler apart. *)
Theorem wait_at_most_one_window
    (cfg : option Config) (clk0 : Q) (cs : list call) (c : call) :
  let rl := RateLimiter_init cfg in
  let self := fst (fst (run_calls rl clk0 cs)) in
  let clk := snd (fst (run_calls rl clk0 cs)) in
  let window_seconds := window_of rl (bucket c) in
  (1 <= max_requests_of rl (bucket c))%Z ->
  sequential rl clk0 cs = true ->
  clk <= at_time c -> 0 <= lateness c ->
  exists stamp,
    snd (wait_if_needed self (bucket c) (at_time c) (lateness c)) = Granted stamp /\
    (stamp = at_time c + lateness c \/
     (at_time c + lateness c < stamp /\
      stamp <= at_time c + window_seconds + lateness c)).
Proof.
  intros rl self clk W HN Hseq Hclk Hlate.
  set (N := max_requests_of rl (bucket c)) in *.
  assert (Hinit : inv (bucket c) N W rl clk0 []).
  { split; [|split].
    - intros t [].
    - intros now _. reflexivity.
    - intros a. change (0 <= N)%Z. lia. }
  pose proof (run_calls_inv (bucket c) N W ltac:(lia) cs rl clk0 []
                eq_refl eq_refl Hinit Hseq) as (Ha & Hb & _).
  fold self clk in Ha, Hb. simpl in Ha.
  assert (Hcfg : config self = config rl) by apply run_calls_config.
  unfold wait_if_needed.
  replace (max_requests_of self (bucket c)) with N
    by (unfold N, max_requests_of, limits_of; rewrite Hcfg; reflexivity).
  replace (window_of self (bucket c)) with W
    by (unfold W, window_of, limits_of; rewrite Hcfg; reflexivity).
  destruct (N <=? _)%Z eqn:Efull; [|eexists; split; [reflexivity|left; reflexivity]].
  destruct (py_min _) as [oldest|] eqn:Emin.
  - apply py_min_spec in Emin. destruct Emin as [Hold _].
    rewrite (Hb (at_time c) Hclk) in Hold.
    apply filter_In in Hold. destruct Hold as [Hin Hyoung].
    apply young_iff in Hyoung. specialize (Ha oldest Hin).
    eexists. split; [reflexivity|]. right.
    rewrite asyncio_sleep_pos by lra. lra.
  - apply Z.leb_le in Efull.
    destruct (List.filter _ _); [simpl in Efull; lia|discriminate].
Qed.

Lemma wait_at_most_one_window_witness :
  let rl := RateLimiter_init (Some two_per_five) in
  let cs := [at_zero; at_zero] in
  let c := {| bucket := "message"; at_time := 1; lateness := 0 |} in
  exists stamp,
    snd (wait_if_needed (fst (fst (run_calls rl 0 cs))) (bucket c)
           (at_time c) (lateness c)) = Granted stamp /\
    (stamp = at_time c + lateness c \/
     (at_time c + lateness c < stamp /\
      stamp <= at_time c + window_of rl (bucket c) + lateness c)).
Proof.
  intros rl cs c.
  apply (wait_at_most_one_window (Some two_per_five) 0 cs c).
  - vm_compute. discriminate.
  - vm_compute. reflexivity.
  - vm_compute. discriminate.
  - vm_compute. discriminate.
Defined.

Lemma bucket_of_set (self : RateLimiter) (b b' : string) (reqs : list Q) :
  bucket_of (set_bucket self b' reqs) b
  = if String.eqb b' b then reqs else bucket_of self b.
Proof.
  unfold bucket_of, set_bucket. simpl.
  destruct (String.eqb_spec b' b) as [->|Hne].
  - by rewrite lookup_insert_eq.
  - by rewrite lookup_insert_ne.
Qed.

(** X24. With a cap of 0 or less, no call to the bucket is ever let
    through: on a new limiter every such call ends in the [ValueError] of
    [min] on an empty list. *)
Theorem zero_cap_always_raises
    (cfg : option Config) (bucket_name : string) (clk0 : Q) (cs : list call) :
  let rl := RateLimiter_init cfg in
  (max_requests_of rl bucket_name <= 0)%Z ->
  admissions_of bucket_name (snd (run_calls rl clk0 cs)) = [] /\
  forall now late,
    snd (wait_if_needed (fst (fst (run_calls rl clk0 cs))) bucket_name now late)
    = ValueError.
Proof.
  intros rl HN.
  assert (G : forall cs self clk,
    config self = config rl -> bucket_of self bucket_name = [] ->
    admissions_of bucket_name (snd (run_calls self clk cs)) = [] /\
    config (fst (fst (run_calls self clk cs))) = config rl /\
    bucket_of (fst (fst (run_calls self clk cs))) bucket_name = []).
  { clear cs. induction cs as [|c cs IH]; intros self clk Hcfg Hempty; simpl.
    - repeat split; assumption.
    - assert (Hstep :
        config (fst (wait_if_needed self (bucket c) (at_time c) (lateness c))) = config rl /\
        bucket_of (fst (wait_if_needed self (bucket c) (at_time c) (lateness c)))
          bucket_name = [] /\
        (bucket c = bucket_name ->
         snd (wait_if_needed self (bucket c) (at_time c) (lateness c)) = ValueError)).
      { split; [rewrite wait_if_needed_config; exact Hcfg|].
        unfold wait_if_needed.
        destruct (String.eqb_spec (bucket c) bucket_name) as [Heq|Hne].
        - rewrite Heq, Hempty.
          replace (max_requests_of self bucket_name) with (max_requests_of rl bucket_name)
            by (unfold max_requests_of, limits_of; rewrite Hcfg; reflexivity).
          cbn [List.filter length]. change (Z.of_nat 0) with 0%Z.
          apply Z.leb_le in HN. rewrite HN. cbn [py_min fst snd].
          rewrite bucket_of_set, String.eqb_refl. split; reflexivity.
        - assert (Hb : String.eqb (bucket c) bucket_name = false)
            by (apply String.eqb_neq; exact Hne).
          destruct (_ <=? _)%Z; [destruct (py_min _)|]; simpl;
            rewrite bucket_of_set, Hb; (split; [exact Hempty|]);
            intros; contradiction. }
      destruct (wait_if_needed self (bucket c) (at_time c) (lateness c)) as [self' o].
      simpl in Hstep. destruct Hstep as (Hcfg' & Hempty' & Hraise).
      specialize (IH self' (return_time c o) Hcfg' Hempty').
      destruct (run_calls self' (return_time c o) cs) as [[final clk'] adm].
      simpl in IH |- *. destruct IH as (IH1 & IH2 & IH3).
      split; [|split; assumption].
      destruct o as [stamp|]; [|exact IH1].
      unfold admissions_of in *. simpl.
      destruct (String.eqb_spec (bucket c) bucket_name) as [Heq|Hne]; [|exact IH1].
      specialize (Hraise Heq). discriminate. }
  destruct (G cs rl clk0 eq_refl eq_refl) as (H1 & H2 & H3).
  split; [exact H1|]. intros now late.
  unfold wait_if_needed. rewrite H3.
  replace (max_requests_of (fst (fst (run_calls rl clk0 cs))) bucket_name)
    with (max_requests_of rl bucket_name)
    by (unfold max_requests_of, limits_of; rewrite H2; reflexivity).
  cbn [List.filter length]. change (Z.of_nat 0) with 0%Z.
  apply Z.leb_le in HN. rewrite HN. reflexivity.
Qed.

Lemma zero_cap_always_raises_witness :
  let cfg :=
    {| token := None; prefix := None;
       rate_limits :=
         Some (<["message"%string := {| requests := Some 0%Z; window := Some 5 |}]> ∅) |} in
  let rl := RateLimiter_init (Some cfg) in
  admissions_of "message" (snd (run_calls rl 0 [at_zero; at_zero])) = [] /\
  forall now late,
    snd (wait_if_needed (fst (fst (run_calls rl 0 [at_zero; at_zero]))) "message" now late)
    = ValueError.
Proof.
  intros cfg rl.
  apply (zero_cap_always_raises (Some cfg) "message" 0 [at_zero; at_zero]).
  vm_compute. discriminate.
Defined.

End RateLimiterMore.

(** ** The gateway: a HELLO frame that cannot be read *)

Section HelloFacts.
Import Gateway.

(** X25. A HELLO frame (opcode 10) whose [d] has no numeric
    [heartbeat_interval] (no such key, a value that is not a number or is
    an integer too large for a float, or a [d] that is not an object)
    raises out of the read loop before anything
    else happens: no heartbeat task is started, nothing is written, the
    stored interval stays, the socket is closed and the failure is counted
    as a reconnect attempt. *)
Theorem hello_without_interval (w : World) (data : frame) :
  reader w = Reading -> ws_live (gw w) = true ->
  op data = Some 10%Z -> hello_interval (d data) = None ->
  exists w1,
    step w (Recv (TEXT (Some data))) = Some w1 /\
    tasks w1 = tasks w /\ sent w1 = sent w /\
    heartbeat_interval (gw w1) = heartbeat_interval (gw w) /\
    ws_live (gw w1) = false /\
    reconnect_attempts (gw w1) = (reconnect_attempts (gw w) + 1)%Z /\
    (reader w1 = Idle \/ exists wake, reader w1 = Backoff wake).
Proof.
  intros Hr Hlive Hop Hiv.
  assert (Hws : exists closed, ws (gw w) = Some closed).
  { unfold ws_live in Hlive. destruct (ws (gw w)); [eauto|discriminate]. }
  destruct Hws as [closed Hws].
  simpl. rewrite Hr. unfold read_loop. rewrite Hlive. simpl.
  unfold _handle_message. rewrite Hop, Hiv. simpl.
  eexists. split; [reflexivity|].
  unfold fail, connect_except, leave_ws.
  destruct (s data); simpl; rewrite Hws; simpl;
    destruct (_ <? _)%Z; simpl; repeat split; eauto.
Qed.

Lemma hello_without_interval_witness :
  let w := in_session "abc" 4 in
  let data := {| op := Some 10%Z; d := JObj [("interval"%string, JInt 41250)];
                 s := None; t := None |} in
  exists w1,
    step w (Recv (TEXT (Some data))) = Some w1 /\
    tasks w1 = tasks w /\ sent w1 = sent w /\
    heartbeat_interval (gw w1) = heartbeat_interval (gw w) /\
    ws_live (gw w1) = false /\
    reconnect_attempts (gw w1) = (reconnect_attempts (gw w) + 1)%Z /\
    (reader w1 = Idle \/ exists wake, reader w1 = Backoff wake).
Proof.
  intros w data. apply (hello_without_interval w data); reflexivity.
Defined.

End HelloFacts.
